(** * Painters: the websocket test client (server/websocket_test_connection.py)

    The script is one coroutine, [connect], run to completion by the asyncio
    event loop.  It talks to its environment (the network, standard output,
    the clock) and is written to loop forever, so it is embedded as an
    interaction tree: every call that leaves the program is an event, the
    two [while True] loops are [ITree.iter], and a Python exception is the
    left summand of a computation's result.

    The tree is then run against a script, the list of what the environment
    answers to the calls that need an answer, in order; the run gives the
    trace of what an observer sees and how the client stands when the script
    is used up.  All properties are about [run]. *)

From Stdlib Require Import List String ZArith Lia Bool Arith.
From ITree Require Import ITree.
Import ListNotations.
Local Open Scope string_scope.
Local Open Scope list_scope.

(* ===================================================================== *)
(** ** Exceptions                                                         *)
(* ===================================================================== *)

(** The exception classes the client can meet: the ones its [except] clause
    names, their ancestors, and siblings that the clause does not name.
    [OtherException] stands for any further class deriving directly from
    [Exception]. *)
Inductive exn_class : Type :=
| BaseException
| KeyboardInterrupt
| Exception
| OSError
| ConnectionError
| ConnectionRefusedError
| ConnectionResetError
| TimeoutError
| gaierror
| WebSocketException
| ConnectionClosed
| ConnectionClosedOK
| ConnectionClosedError
| InvalidURI
| InvalidHandshake
| OtherException (name : string).

Definition exn_class_eqb (c d : exn_class) : bool :=
  match c, d with
  | BaseException, BaseException
  | KeyboardInterrupt, KeyboardInterrupt
  | Exception, Exception
  | OSError, OSError
  | ConnectionError, ConnectionError
  | ConnectionRefusedError, ConnectionRefusedError
  | ConnectionResetError, ConnectionResetError
  | TimeoutError, TimeoutError
  | gaierror, gaierror
  | WebSocketException, WebSocketException
  | ConnectionClosed, ConnectionClosed
  | ConnectionClosedOK, ConnectionClosedOK
  | ConnectionClosedError, ConnectionClosedError
  | InvalidURI, InvalidURI
  | InvalidHandshake, InvalidHandshake => true
  | OtherException n, OtherException m => String.eqb n m
  | _, _ => false
  end.

(** The direct base class (all of these use single inheritance). *)
Definition base (c : exn_class) : option exn_class :=
  match c with
  | BaseException => None
  | KeyboardInterrupt => Some BaseException
  | Exception => Some BaseException
  | OSError => Some Exception
  | ConnectionError => Some OSError
  | ConnectionRefusedError => Some ConnectionError
  | ConnectionResetError => Some ConnectionError
  | TimeoutError => Some OSError
  | gaierror => Some OSError
  | WebSocketException => Some Exception
  | ConnectionClosed => Some WebSocketException
  | ConnectionClosedOK => Some ConnectionClosed
  | ConnectionClosedError => Some ConnectionClosed
  | InvalidURI => Some WebSocketException
  | InvalidHandshake => Some WebSocketException
  | OtherException _ => Some Exception
  end.

(** [issubclass c d]: walk up from [c]; no chain above is longer than five. *)
Fixpoint issubclass_upto (depth : nat) (c d : exn_class) : bool :=
  exn_class_eqb c d ||
  match depth with
  | 0 => false
  | S depth' =>
      match base c with
      | Some b => issubclass_upto depth' b d
      | None => false
      end
  end.

Definition issubclass : exn_class -> exn_class -> bool := issubclass_upto 5.

(** An exception instance: its class, and the text [str(e)] gives. *)
Record exn : Type := mk_exn { exn_cls : exn_class; exn_str : string }.

Definition isinstance (e : exn) (c : exn_class) : bool :=
  issubclass (exn_cls e) c.

(** [isinstance(e, (c1, ..., cn))], which is how an [except] clause with a
    tuple of classes selects. *)
Definition isinstance_any (e : exn) (cs : list exn_class) : bool :=
  existsb (isinstance e) cs.

(* ===================================================================== *)
(** ** Events and the coroutine monad                                     *)
(* ===================================================================== *)

(** What the environment answers to a call: a value, or an exception
    raised at the call.  The client only ever looks at the value of
    [recv()], a text frame. *)
Inductive response : Type :=
| Returns (v : string)
| Raises (e : exn).

(** The calls that leave the program. *)
Variant pyE : Type -> Type :=
| Connect (uri : string) : pyE response   (* entering websockets.connect(uri) *)
| Close : pyE unit                         (* leaving it: the connection closes *)
| Send (data : string) : pyE response      (* websocket.send(data) *)
| Recv : pyE response                      (* websocket.recv() *)
| Print (line : string) : pyE unit         (* print(line) *)
| Sleep (secs : Z) : pyE unit.             (* time.sleep(secs) *)

(** A Python computation: an interaction tree that ends in an exception
    being raised or in a value. *)
Definition py (A : Type) : Type := itree pyE (exn + A).

Definition ret {A} (a : A) : py A := Ret (inr a).
Definition raise {A} (e : exn) : py A := Ret (inl e).

Definition bindp {A B} (m : py A) (k : A -> py B) : py B :=
  ITree.bind m (fun r =>
    match r with
    | inl e => Ret (inl e)
    | inr a => k a
    end).

Declare Scope py_scope.
Delimit Scope py_scope with py.
Notation "x <- c ;; k" := (bindp c (fun x => k))
  (at level 61, c at next level, right associativity) : py_scope.
Notation "c ;; k" := (bindp c (fun _ => k))
  (at level 61, right associativity) : py_scope.
Local Open Scope py_scope.

(** A call the environment may answer with an exception. *)
Definition call (e : pyE response) : py string :=
  ITree.bind (ITree.trigger e) (fun r =>
    match r with
    | Returns v => ret v
    | Raises x => raise x
    end).

(** A call that only has an effect. *)
Definition perform (e : pyE unit) : py unit :=
  ITree.bind (ITree.trigger e) (fun _ => ret tt).

Definition print (line : string) : py unit := perform (Print line).
Definition time_sleep (secs : Z) : py unit := perform (Sleep secs).

(** The connection object bound by [async with ... as websocket]; the client
    holds one at a time and only calls its methods. *)
Definition websocket : Type := unit.

Definition websockets_connect (uri : string) : py websocket :=
  _ <- call (Connect uri) ;; ret tt.
Definition websocket_send (ws : websocket) (data : string) : py unit :=
  _ <- call (Send data) ;; ret tt.
Definition websocket_recv (ws : websocket) : py string := call Recv.
Definition websocket_close (ws : websocket) : py unit := perform Close.

(** [while True: body], with no [break]: the only way out is an exception. *)
Definition while_true (body : py unit) : py unit :=
  ITree.iter (fun _ : unit =>
    ITree.bind body (fun r =>
      match r with
      | inl e => Ret (inr (inl e))
      | inr _ => Ret (inl tt)
      end)) tt.

(** [async with enter as x: body]: when entering raises, nothing else runs;
    otherwise the connection is closed however the body is left, and an
    exception from the body is raised again after that. *)
Definition async_with {A} (enter : py websocket) (body : websocket -> py A)
  : py A :=
  x <- enter ;;
  ITree.bind (body x) (fun r =>
    ITree.bind (websocket_close x) (fun _ => Ret r)).

(** [try: body / except classes as e: handler]. *)
Definition try_except {A} (body : py A) (classes : list exn_class)
    (handler : exn -> py A) : py A :=
  ITree.bind body (fun r =>
    match r with
    | inl e => if isinstance_any e classes then handler e else Ret (inl e)
    | inr a => Ret (inr a)
    end).

(* ===================================================================== *)
(** ** The client                                                         *)
(* ===================================================================== *)

Definition connect : py unit :=
  let uri := "ws://painters.segerend.nl:80" in
  while_true (
    try_except
      (async_with (websockets_connect uri) (fun websocket =>
         print "Connected to server" ;;
         websocket_send websocket "Hello, Server!" ;;
         while_true (
           response <- websocket_recv websocket ;;
           print ("Message from server: " ++ response))))
      [ConnectionClosed; ConnectionRefusedError; gaierror]
      (fun e => print ("Connection failed: " ++ exn_str e ++ ". Retrying...")) ;;
    time_sleep 5).

(** [asyncio.get_event_loop().run_until_complete(connect())]: the loop
    drives the one coroutine; its result or exception is the call's. *)
Definition main : py unit := connect.

(* ===================================================================== *)
(** ** Running against a scripted environment                             *)
(* ===================================================================== *)

(** What an observer sees, in order. *)
Inductive event : Type :=
| EConnect (uri : string)   (* a connection attempt starts *)
| EOpen                     (* the handshake succeeded: a connection is open *)
| EClose                    (* the open connection is closed *)
| ESend (data : string)
| ERecv                     (* the client waits for the next message *)
| EPrint (line : string)
| ESleep (secs : Z).

(** How a run stands when it stops. *)
Inductive outcome (R : Type) : Type :=
| Finished (r : R) (unread : list response)
| Blocked      (* waiting for an answer the script does not have *)
| OutOfFuel.
Arguments Finished {R} r unread.
Arguments Blocked {R}.
Arguments OutOfFuel {R}.

Definition emit {R} (ev : list event) (res : list event * outcome R)
  : list event * outcome R :=
  (ev ++ fst res, snd res).

(** One visible step: the events it logs, and the tree and script to go on
    with ([None] when the call needs an answer and the script is empty). *)
Definition answer {R X} (e : pyE X)
  : (X -> itree pyE R) -> list response ->
    list event * option (itree pyE R * list response) :=
  match e in pyE X
        return (X -> itree pyE R) -> list response ->
               list event * option (itree pyE R * list response) with
  | Connect uri => fun k s =>
      match s with
      | [] => ([EConnect uri], None)
      | Returns v :: s' => ([EConnect uri; EOpen], Some (k (Returns v), s'))
      | Raises x :: s' => ([EConnect uri], Some (k (Raises x), s'))
      end
  | Send data => fun k s =>
      match s with
      | [] => ([ESend data], None)
      | r :: s' => ([ESend data], Some (k r, s'))
      end
  | Recv => fun k s =>
      match s with
      | [] => ([ERecv], None)
      | r :: s' => ([ERecv], Some (k r, s'))
      end
  | Close => fun k s => ([EClose], Some (k tt, s))
  | Print line => fun k s => ([EPrint line], Some (k tt, s))
  | Sleep secs => fun k s => ([ESleep secs], Some (k tt, s))
  end.

Fixpoint exec {R} (fuel : nat) (t : itree pyE R) (script : list response)
  : list event * outcome R :=
  match fuel with
  | 0 => ([], OutOfFuel)
  | S fuel' =>
      match observe t with
      | RetF r => ([], Finished r script)
      | TauF t' => exec fuel' t' script
      | VisF e k =>
          match answer e k script with
          | (evs, None) => (evs, Blocked)
          | (evs, Some (t', script')) => emit evs (exec fuel' t' script')
          end
      end
  end.

(** No answer costs the client more than five steps, so this fuel is never
    used up ([run_has_fuel] below). *)
Definition run (script : list response) : list event * outcome (exn + unit) :=
  exec (5 * List.length script + 2) main script.

(** The exit status of the interpreter, once the script's last statement
    is over: an exception that reaches the top level is reported and the
    status is 1 (130 for [KeyboardInterrupt]); falling off the end of the
    module gives 0.  A client that is still running has none. *)
Definition exit_status (o : outcome (exn + unit)) : option Z :=
  match o with
  | Finished (inl e) _ =>
      if isinstance e KeyboardInterrupt then Some 130%Z else Some 1%Z
  | Finished (inr _) _ => Some 0%Z
  | Blocked | OutOfFuel => None
  end.

(** [yields t s res c]: from [c] units of fuel on, running [t] against
    [s] gives [res]. *)
Definition yields {R} (t : itree pyE R) (s : list response)
    (res : list event * outcome R) (c : nat) : Prop :=
  forall fuel, c <= fuel -> exec fuel t s = res.

(* ===================================================================== *)
(** ** Reading a trace                                                    *)
(* ===================================================================== *)

Definition is_connect (ev : event) : bool :=
  match ev with EConnect _ => true | _ => false end.

Definition is_open (ev : event) : bool :=
  match ev with EOpen => true | _ => false end.

Definition is_sleep (ev : event) : bool :=
  match ev with ESleep _ => true | _ => false end.

(** How many times [websockets.connect] was called. *)
Definition connects (tr : list event) : nat :=
  List.length (filter is_connect tr).

(** The pauses taken, in order. *)
Fixpoint pauses (tr : list event) : list Z :=
  match tr with
  | [] => []
  | ESleep secs :: tr' => secs :: pauses tr'
  | _ :: tr' => pauses tr'
  end.

(** The lines written to standard output, in order. *)
Fixpoint printed (tr : list event) : list string :=
  match tr with
  | [] => []
  | EPrint line :: tr' => line :: printed tr'
  | _ :: tr' => printed tr'
  end.

(** The payloads sent, in order. *)
Fixpoint sent (tr : list event) : list string :=
  match tr with
  | [] => []
  | ESend data :: tr' => data :: sent tr'
  | _ :: tr' => sent tr'
  end.

(** The events before the first [recv()]. *)
Fixpoint before_recv (tr : list event) : list event :=
  match tr with
  | [] => []
  | ERecv :: _ => []
  | ev :: tr' => ev :: before_recv tr'
  end.

(** Cut a trace in front of every [EConnect]: what comes before the first
    one, and then one piece per connection attempt. *)
Fixpoint split_attempts (tr : list event) : list event * list (list event) :=
  match tr with
  | [] => ([], [])
  | ev :: tr' =>
      let (cur, segs) := split_attempts tr' in
      if is_connect ev then ([], (ev :: cur) :: segs) else (ev :: cur, segs)
  end.

Definition attempts_of (tr : list event) : list (list event) :=
  snd (split_attempts tr).

(** Connections open after [tr], when [h] were open before. *)
Fixpoint open_handles (h : Z) (tr : list event) : Z :=
  match tr with
  | [] => h
  | EOpen :: tr' => open_handles (h + 1) tr'
  | EClose :: tr' => open_handles (h - 1) tr'
  | _ :: tr' => open_handles h tr'
  end.

(** [sequential h tr]: with [h] connections open before [tr], there is
    never more than one open along [tr], and none when an attempt or a
    pause starts. *)
Fixpoint sequential (h : Z) (tr : list event) : Prop :=
  match tr with
  | [] => (0 <= h <= 1)%Z
  | ev :: tr' =>
      (0 <= h <= 1)%Z /\
      (is_connect ev || is_sleep ev = true -> h = 0%Z) /\
      sequential (open_handles h [ev]) tr'
  end.

(** The script of an attempt that fails: the calls that returned, then the
    one that raised. *)
Definition failing (a : list string * exn) : list response :=
  map Returns (fst a) ++ [Raises (snd a)].

(** The classes of the client's [except] clause. *)
Definition recoverable (e : exn) : bool :=
  isinstance_any e [ConnectionClosed; ConnectionRefusedError; gaierror].

(** Every exception the script raises is of one of them. *)
Definition answers_recoverable (s : list response) : Prop :=
  forall e, In (Raises e) s -> recoverable e = true.

(* ===================================================================== *)
(** ** The client, answer by answer                                       *)
(* ===================================================================== *)

(** The parts of [connect], named: [connect] is [while_true attempt]. *)
Definition endpoint : string := "ws://painters.segerend.nl:80".
Definition greeting : string := "Hello, Server!".
Definition connected_line : string := "Connected to server".
Definition message_line (m : string) : string := "Message from server: " ++ m.
Definition failure_line (e : exn) : string :=
  "Connection failed: " ++ exn_str e ++ ". Retrying...".

Definition receive_loop (ws : websocket) : py unit :=
  while_true (
    response <- websocket_recv ws ;;
    print ("Message from server: " ++ response)).

Definition session (ws : websocket) : py unit :=
  print "Connected to server" ;;
  websocket_send ws "Hello, Server!" ;;
  receive_loop ws.

Definition attempt : py unit :=
  try_except
    (async_with (websockets_connect endpoint) session)
    [ConnectionClosed; ConnectionRefusedError; gaierror]
    (fun e => print ("Connection failed: " ++ exn_str e ++ ". Retrying...")) ;;
  time_sleep 5.

(** One turn of [while True], as [ITree.iter] unfolds it. *)
Definition while_step (body : py unit) : itree pyE (unit + (exn + unit)) :=
  ITree.bind body (fun r =>
    match r with
    | inl e => Ret (inr (inl e))
    | inr _ => Ret (inl tt)
    end).

Definition while_next (body : py unit) (lr : unit + (exn + unit)) : py unit :=
  match lr with
  | inl i => Tau (ITree.iter (fun _ : unit => while_step body) i)
  | inr r => Ret r
  end.

Definition then_bind {A B} (k : A -> itree pyE B)
    (o : option (itree pyE A * list response))
  : option (itree pyE B * list response) :=
  match o with
  | Some (t, s) => Some (ITree.bind t k, s)
  | None => None
  end.

(** Where the client waits for the environment. *)
Inductive phase : Type := Connecting | Announcing | Receiving.

(** The call the client is waiting on. *)
Definition pending (p : phase) : event :=
  match p with
  | Connecting => EConnect endpoint
  | Announcing => ESend greeting
  | Receiving => ERecv
  end.

(** Leaving the [async with] block closes the connection, if there is one. *)
Definition closing (p : phase) : list event :=
  match p with
  | Connecting => []
  | Announcing | Receiving => [EClose]
  end.

(** The connections the client holds while it waits. *)
Definition held (p : phase) : Z :=
  match p with
  | Connecting => 0
  | Announcing | Receiving => 1
  end.

(** The client as a machine that reads one answer at a time.  It is not
    part of the embedding: [run_machine] proves that [run], which executes
    the tree of [connect], computes the same thing, and the properties of
    [run] are then proved by induction on the script. *)
Fixpoint machine (p : phase) (s : list response)
  : list event * outcome (exn + unit) :=
  match s with
  | [] => ([pending p], Blocked)
  | Returns v :: s' =>
      match p with
      | Connecting =>
          emit [EConnect endpoint; EOpen; EPrint connected_line]
               (machine Announcing s')
      | Announcing => emit [ESend greeting] (machine Receiving s')
      | Receiving => emit [ERecv; EPrint (message_line v)] (machine Receiving s')
      end
  | Raises e :: s' =>
      emit (pending p :: closing p)
           (if recoverable e
            then emit [EPrint (failure_line e); ESleep 5] (machine Connecting s')
            else ([], Finished (inl e) s'))
  end.

(** The events of [msgs] arriving one after the other. *)
Definition received (msgs : list string) : list event :=
  flat_map (fun m => [ERecv; EPrint (message_line m)]) msgs.

(** What the single-greeting property asks of the events of one attempt. *)
Definition greeting_ok (a : list event) : Prop :=
  if existsb is_open a
  then sent a = ["Hello, Server!"] /\ sent (before_recv a) = ["Hello, Server!"]
  else sent a = [].

(** The same for the events since the last call to connect, by phase. *)
Definition since_connect_ok (p : phase) (cur : list event) : Prop :=
  match p with
  | Connecting => cur = []
  | Announcing =>
      existsb is_open cur = false /\
      sent cur = [greeting] /\ sent (before_recv cur) = [greeting]
  | Receiving =>
      existsb is_open cur = false /\
      sent cur = [] /\ sent (before_recv cur) = []
  end.

(** A printed line with its text blanked: what is left is that a line was
    printed there. *)
Definition blank (ev : event) : event :=
  match ev with
  | EPrint _ => EPrint EmptyString
  | _ => ev
  end.

(** Two answers between which the client cannot tell but by the text it
    prints: two values, or two exceptions that the [except] clause treats
    alike. *)
Definition same_control (r1 r2 : response) : Prop :=
  match r1, r2 with
  | Returns _, Returns _ => True
  | Raises e1, Raises e2 => recoverable e1 = recoverable e2
  | _, _ => False
  end.

(** How many connections were opened. *)
Definition opens (tr : list event) : nat :=
  List.length (filter is_open tr).

(** The line feed that [print] writes after its text. *)
Definition LF : Ascii.ascii := Ascii.ascii_of_nat 10.

(** The text has no line feed in it. *)
Fixpoint no_newline (text : string) : bool :=
  match text with
  | EmptyString => true
  | String c text' => negb (Ascii.eqb c LF) && no_newline text'
  end.

(** What the run has written to standard output: each [print(line)] writes
    the text of [line] and then a line feed. *)
Fixpoint stdout (tr : list event) : string :=
  match tr with
  | [] => EmptyString
  | EPrint line :: tr' => line ++ String LF (stdout tr')
  | _ :: tr' => stdout tr'
  end.

(** The lines of a text, cut at its line feeds. *)
Fixpoint lines (text : string) : list string :=
  match text with
  | EmptyString => []
  | String c text' =>
      if Ascii.eqb c LF then EmptyString :: lines text'
      else match lines text' with
           | [] => [String c EmptyString]
           | l :: ls => String c l :: ls
           end
  end.

(* ===================================================================== *)
(** ** Running: general facts                                            *)
(* ===================================================================== *)

Section Exec.
Context {R : Type}.
Implicit Types (t : itree pyE R) (s : list response).

Lemma emit_nil (res : list event * outcome R) : emit [] res = res.
Proof. destruct res; reflexivity. Qed.

Lemma emit_emit (a b : list event) (res : list event * outcome R) :
  emit a (emit b res) = emit (a ++ b) res.
Proof. unfold emit; simpl. now rewrite app_assoc. Qed.

Lemma exec_S fuel t s :
  exec (S fuel) t s =
  match observe t with
  | RetF r => ([], Finished r s)
  | TauF t' => exec fuel t' s
  | VisF e k =>
      match answer e k s with
      | (evs, None) => (evs, Blocked)
      | (evs, Some (t', s')) => emit evs (exec fuel t' s')
      end
  end.
Proof. reflexivity. Qed.

(** [exec] reads a tree only through [observe]. *)
Lemma exec_ext fuel t t' s :
  observe t = observe t' -> exec fuel t s = exec fuel t' s.
Proof. intros H. destruct fuel; simpl; [reflexivity | now rewrite H]. Qed.

Lemma yields_weaken t s res c c' :
  c <= c' -> yields t s res c -> yields t s res c'.
Proof. intros Hc H fuel Hf. apply H. lia. Qed.

Lemma yields_ext t t' s res c :
  observe t = observe t' -> yields t' s res c -> yields t s res c.
Proof. intros E H fuel Hf. rewrite (exec_ext fuel t t' s E). now apply H. Qed.

Lemma yields_ret (r : R) s : yields (Ret r) s ([], Finished r s) 1.
Proof. intros [|fuel] Hf; [lia | reflexivity]. Qed.

Lemma yields_tau t s res c : yields t s res c -> yields (Tau t) s res (S c).
Proof. intros H [|fuel] Hf; [lia|]. simpl. apply H. lia. Qed.
End Exec.

Lemma emit_inv {R} (evs tr : list event) (res : list event * outcome R) o :
  emit evs res = (tr, o) -> exists tr', res = (tr', o) /\ tr = evs ++ tr'.
Proof.
  destruct res as [tr' o']. unfold emit; simpl. intros H.
  injection H as <- <-. now exists tr'.
Qed.

Lemma yields_result {R} (t : itree pyE R) s res res' c c' :
  yields t s res c -> res = res' -> c <= c' -> yields t s res' c'.
Proof. intros H <- Hc. now apply (yields_weaken t s res c c'). Qed.

Lemma bind_observe {A B} (t : itree pyE A) (k : A -> itree pyE B) :
  observe (ITree.bind t k) =
  match observe t with
  | RetF r => observe (k r)
  | TauF t' => TauF (ITree.bind t' k)
  | VisF e h => VisF e (fun x => ITree.bind (h x) k)
  end.
Proof.
  change (observe (ITree.bind t k))
    with (observe (match observe t with
                   | RetF r => k r
                   | TauF t' => Tau (ITree.bind t' k)
                   | VisF e h => Vis e (fun x => ITree.bind (h x) k)
                   end)).
  destruct (observe t); reflexivity.
Qed.

Lemma answer_bind {A B X} (e : pyE X) (h : X -> itree pyE A)
    (k : A -> itree pyE B) (s : list response) :
  answer e (fun x => ITree.bind (h x) k) s =
  (fst (answer e h s), then_bind k (snd (answer e h s))).
Proof. destruct e; simpl; try reflexivity; destruct s as [|[v|x] s]; reflexivity. Qed.

Lemma exec_bind_finished {A B} (k : A -> itree pyE B) res c2 :
  forall n (t : itree pyE A) s tr r s',
    exec n t s = (tr, Finished r s') ->
    yields (k r) s' res c2 ->
    forall fuel, n - 1 + c2 <= fuel -> exec fuel (ITree.bind t k) s = emit tr res.
Proof.
  induction n as [|n IH]; intros t s tr r s' Hn Hk fuel Hf; simpl in Hn.
  - discriminate.
  - destruct (observe t) as [r0 | t' | X e h] eqn:Ot.
    + injection Hn as <- <- <-.
      rewrite (exec_ext fuel (ITree.bind t k) (k r0) s).
      * rewrite emit_nil. apply Hk. lia.
      * rewrite bind_observe, Ot. reflexivity.
    + destruct n as [|n']; [discriminate|].
      destruct fuel as [|fuel]; [lia|].
      rewrite exec_S, bind_observe, Ot.
      apply (IH t' s tr r s' Hn Hk). lia.
    + destruct (answer e h s) as [evs [[t1 s1]|]] eqn:Ans; [|discriminate].
      destruct (emit_inv _ _ _ _ Hn) as (tr1 & Hn1 & ->).
      destruct n as [|n']; [discriminate|].
      destruct fuel as [|fuel]; [lia|].
      rewrite exec_S, bind_observe, Ot, answer_bind, Ans. simpl.
      rewrite (IH t1 s1 tr1 r s' Hn1 Hk) by lia.
      apply emit_emit.
Qed.

Lemma exec_bind_blocked {A B} (k : A -> itree pyE B) :
  forall n (t : itree pyE A) s tr,
    exec n t s = (tr, Blocked) ->
    forall fuel, n <= fuel -> exec fuel (ITree.bind t k) s = (tr, Blocked).
Proof.
  induction n as [|n IH]; intros t s tr Hn fuel Hf; simpl in Hn.
  - discriminate.
  - destruct fuel as [|fuel]; [lia|].
    rewrite exec_S, bind_observe.
    destruct (observe t) as [r0 | t' | X e h] eqn:Ot.
    + discriminate.
    + apply (IH t' s tr Hn). lia.
    + rewrite answer_bind.
      destruct (answer e h s) as [evs [[t1 s1]|]] eqn:Ans; simpl.
      * destruct (emit_inv _ _ _ _ Hn) as (tr1 & Hn1 & ->).
        rewrite (IH t1 s1 tr1 Hn1) by lia. reflexivity.
      * injection Hn as <-. reflexivity.
Qed.

Section Yields.
Context {A B : Type}.
Implicit Types (t : itree pyE A) (k : A -> itree pyE B).

(** Sequencing: [t] runs to its result, then [k] takes over. *)
Lemma yields_bind t k s tr r s' res c1 c2 :
  yields t s (tr, Finished r s') (S c1) ->
  yields (k r) s' res c2 ->
  yields (ITree.bind t k) s (emit tr res) (c2 + c1).
Proof.
  intros Ht Hk fuel Hf.
  apply (exec_bind_finished k res c2 (S c1) t s tr r s' (Ht (S c1) (le_n _)) Hk).
  lia.
Qed.

(** The same when [k] only returns. *)
Lemma yields_bind_ret t k s tr r s' r' c :
  yields t s (tr, Finished r s') (S c) ->
  k r = Ret r' ->
  yields (ITree.bind t k) s (tr, Finished r' s') (S c).
Proof.
  intros Ht Hk.
  pose proof (yields_bind t k s tr r s' ([], Finished r' s') c 1 Ht) as H.
  rewrite Hk in H. specialize (H (yields_ret r' s')).
  unfold emit in H; simpl in H. now rewrite app_nil_r in H.
Qed.

Lemma yields_bind_blocked t k s tr c :
  yields t s (tr, Blocked) c -> yields (ITree.bind t k) s (tr, Blocked) c.
Proof.
  intros Ht fuel Hf.
  apply (exec_bind_blocked k c t s tr (Ht c (le_n _)) fuel Hf).
Qed.
End Yields.

(** Leave the cost of a [yields] goal open, to be compared at the end. *)
Ltac costing := eapply yields_weaken; cycle 1.

Ltac same_result :=
  unfold emit; simpl; rewrite <- ?app_assoc; simpl; reflexivity.

(* ===================================================================== *)
(** ** Running: the Python constructs                                    *)
(* ===================================================================== *)

Lemma yields_print line s :
  yields (print line) s ([EPrint line], Finished (inr tt) s) 2.
Proof. intros [|[|fuel]] Hf; [lia | lia | reflexivity]. Qed.

Lemma yields_sleep secs s :
  yields (time_sleep secs) s ([ESleep secs], Finished (inr tt) s) 2.
Proof. intros [|[|fuel]] Hf; [lia | lia | reflexivity]. Qed.

Lemma yields_close ws s :
  yields (websocket_close ws) s ([EClose], Finished (inr tt) s) 2.
Proof. intros [|[|fuel]] Hf; [lia | lia | reflexivity]. Qed.

Lemma yields_connect_blocked uri :
  yields (websockets_connect uri) [] ([EConnect uri], Blocked) 1.
Proof. intros [|fuel] Hf; [lia | reflexivity]. Qed.

Lemma yields_connect_returns uri v s :
  yields (websockets_connect uri) (Returns v :: s)
         ([EConnect uri; EOpen], Finished (inr tt) s) 2.
Proof. intros [|[|fuel]] Hf; [lia | lia | reflexivity]. Qed.

Lemma yields_connect_raises uri e s :
  yields (websockets_connect uri) (Raises e :: s)
         ([EConnect uri], Finished (inl e) s) 2.
Proof. intros [|[|fuel]] Hf; [lia | lia | reflexivity]. Qed.

Lemma yields_send_blocked ws data :
  yields (websocket_send ws data) [] ([ESend data], Blocked) 1.
Proof. intros [|fuel] Hf; [lia | reflexivity]. Qed.

Lemma yields_send_returns ws data v s :
  yields (websocket_send ws data) (Returns v :: s)
         ([ESend data], Finished (inr tt) s) 2.
Proof. intros [|[|fuel]] Hf; [lia | lia | reflexivity]. Qed.

Lemma yields_send_raises ws data e s :
  yields (websocket_send ws data) (Raises e :: s)
         ([ESend data], Finished (inl e) s) 2.
Proof. intros [|[|fuel]] Hf; [lia | lia | reflexivity]. Qed.

Lemma yields_recv_blocked ws :
  yields (websocket_recv ws) [] ([ERecv], Blocked) 1.
Proof. intros [|fuel] Hf; [lia | reflexivity]. Qed.

Lemma yields_recv_returns ws v s :
  yields (websocket_recv ws) (Returns v :: s) ([ERecv], Finished (inr v) s) 2.
Proof. intros [|[|fuel]] Hf; [lia | lia | reflexivity]. Qed.

Lemma yields_recv_raises ws e s :
  yields (websocket_recv ws) (Raises e :: s) ([ERecv], Finished (inl e) s) 2.
Proof. intros [|[|fuel]] Hf; [lia | lia | reflexivity]. Qed.

Section Constructs.
Context {A B : Type}.

(** [m ;; k] when [m] returns. *)
Lemma yields_seq (m : py A) (k : A -> py B) s tr a s' tr' o c1 c2 :
  yields m s (tr, Finished (inr a) s') (S c1) ->
  yields (k a) s' (tr', o) c2 ->
  yields (bindp m k) s (tr ++ tr', o) (c2 + c1).
Proof.
  intros Hm Hk. exact (yields_bind m _ s tr (inr a) s' (tr', o) c1 c2 Hm Hk).
Qed.

(** [m ;; k] when [m] raises: [k] is skipped. *)
Lemma yields_seq_raises (m : py A) (k : A -> py B) s tr e s' c :
  yields m s (tr, Finished (inl e) s') (S c) ->
  yields (bindp m k) s (tr, Finished (inl e) s') (S c).
Proof. intros Hm. now apply (yields_bind_ret m _ s tr (inl e) s' (inl e) c). Qed.

Lemma yields_seq_blocked (m : py A) (k : A -> py B) s tr c :
  yields m s (tr, Blocked) c -> yields (bindp m k) s (tr, Blocked) c.
Proof. apply yields_bind_blocked. Qed.
End Constructs.

Section Statements.
Context {A : Type}.

(** [try/except]: the body returns. *)
Lemma yields_try_returns (body : py A) classes handler s tr a s' c :
  yields body s (tr, Finished (inr a) s') (S c) ->
  yields (try_except body classes handler) s (tr, Finished (inr a) s') (S c).
Proof. intros Hb. now apply (yields_bind_ret body _ s tr (inr a) s' (inr a) c). Qed.

(** [try/except]: the body raises an instance of a listed class. *)
Lemma yields_try_caught (body : py A) classes handler s tr e s' tr' o c1 c2 :
  yields body s (tr, Finished (inl e) s') (S c1) ->
  isinstance_any e classes = true ->
  yields (handler e) s' (tr', o) c2 ->
  yields (try_except body classes handler) s (tr ++ tr', o) (c2 + c1).
Proof.
  intros Hb He Hh.
  apply (yields_bind body _ s tr (inl e) s' (tr', o) c1 c2 Hb).
  simpl. rewrite He. exact Hh.
Qed.

(** [try/except]: the body raises anything else, which goes through. *)
Lemma yields_try_uncaught (body : py A) classes handler s tr e s' c :
  yields body s (tr, Finished (inl e) s') (S c) ->
  isinstance_any e classes = false ->
  yields (try_except body classes handler) s (tr, Finished (inl e) s') (S c).
Proof.
  intros Hb He.
  apply (yields_bind_ret body _ s tr (inl e) s' (inl e) c Hb).
  simpl. now rewrite He.
Qed.

Lemma yields_try_blocked (body : py A) classes handler s tr c :
  yields body s (tr, Blocked) c ->
  yields (try_except body classes handler) s (tr, Blocked) c.
Proof. apply yields_bind_blocked. Qed.

(** [async with]: entering fails, so neither the body nor [__aexit__]
    runs. *)
Lemma yields_with_enter_raises (enter : py websocket) (body : websocket -> py A)
    s tr e s' c :
  yields enter s (tr, Finished (inl e) s') (S c) ->
  yields (async_with enter body) s (tr, Finished (inl e) s') (S c).
Proof. apply yields_seq_raises. Qed.

Lemma yields_with_enter_blocked (enter : py websocket) (body : websocket -> py A)
    s tr c :
  yields enter s (tr, Blocked) c ->
  yields (async_with enter body) s (tr, Blocked) c.
Proof. apply yields_seq_blocked. Qed.

(** [async with]: the body is left (by a value or an exception) and the
    connection is closed on the way out. *)
Lemma yields_with_exit (enter : py websocket) (body : websocket -> py A)
    s tr1 ws s1 tr2 r s2 c1 c2 :
  yields enter s (tr1, Finished (inr ws) s1) (S c1) ->
  yields (body ws) s1 (tr2, Finished r s2) (S c2) ->
  yields (async_with enter body) s
         (tr1 ++ tr2 ++ [EClose], Finished r s2) (S (S (c2 + c1))).
Proof.
  intros He Hb.
  assert (Hc : yields (ITree.bind (websocket_close ws) (fun _ => Ret r)) s2
                 ([EClose], Finished r s2) 2).
  { intros [|[|fuel]] Hf; [lia | lia | reflexivity]. }
  pose proof (yields_bind (body ws)
    (fun r => ITree.bind (websocket_close ws) (fun _ => Ret r))
    s1 tr2 r s2 _ c2 2 Hb Hc) as H1.
  exact (yields_seq enter
    (fun x => ITree.bind (body x) (fun r =>
                ITree.bind (websocket_close x) (fun _ => Ret r)))
    s tr1 ws s1 _ _ c1 _ He H1).
Qed.

Lemma yields_with_blocked (enter : py websocket) (body : websocket -> py A)
    s tr1 ws s1 tr2 c1 c2 :
  yields enter s (tr1, Finished (inr ws) s1) (S c1) ->
  yields (body ws) s1 (tr2, Blocked) c2 ->
  yields (async_with enter body) s (tr1 ++ tr2, Blocked) (c2 + c1).
Proof.
  intros He Hb.
  pose proof (yields_bind_blocked (body ws)
    (fun r => ITree.bind (websocket_close ws) (fun _ => Ret r)) s1 tr2 c2 Hb) as H1.
  exact (yields_seq enter
    (fun x => ITree.bind (body x) (fun r =>
                ITree.bind (websocket_close x) (fun _ => Ret r)))
    s tr1 ws s1 _ _ c1 _ He H1).
Qed.
End Statements.

Lemma while_true_observe (body : py unit) :
  observe (while_true body) =
  observe (ITree.bind (while_step body) (while_next body)).
Proof. reflexivity. Qed.

Lemma yields_while_step (body : py unit) s tr r s' c :
  yields body s (tr, Finished r s') (S c) ->
  yields (while_step body) s
         (tr, Finished (match r with
                        | inl e => inr (inl e)
                        | inr _ => inl tt
                        end) s') (S c).
Proof.
  intros Hb. apply (yields_bind_ret body _ s tr r s' _ c Hb).
  now destruct r.
Qed.

(** [while True]: an iteration that returns is followed by the next one. *)
Lemma yields_while_again (body : py unit) s tr u s' res c1 c2 :
  yields body s (tr, Finished (inr u) s') (S c1) ->
  yields (while_true body) s' res c2 ->
  yields (while_true body) s (emit tr res) (S c2 + c1).
Proof.
  intros Hb Hl.
  eapply yields_ext; [apply while_true_observe|].
  apply (yields_bind _ _ s tr (inl tt) s' res c1 (S c2)).
  - exact (yields_while_step body s tr (inr u) s' c1 Hb).
  - apply (yields_tau (while_true body)). exact Hl.
Qed.

(** [while True]: an iteration that raises ends the loop. *)
Lemma yields_while_raises (body : py unit) s tr e s' c :
  yields body s (tr, Finished (inl e) s') (S c) ->
  yields (while_true body) s (tr, Finished (inl e) s') (S c).
Proof.
  intros Hb.
  eapply yields_ext; [apply while_true_observe|].
  apply (yields_bind_ret _ _ s tr (inr (inl e)) s' (inl e) c); [|reflexivity].
  exact (yields_while_step body s tr (inl e) s' c Hb).
Qed.

Lemma yields_while_blocked (body : py unit) s tr c :
  yields body s (tr, Blocked) c ->
  yields (while_true body) s (tr, Blocked) c.
Proof.
  intros Hb.
  eapply yields_ext; [apply while_true_observe|].
  apply yields_bind_blocked. unfold while_step.
  apply yields_bind_blocked. exact Hb.
Qed.

(* ===================================================================== *)
(** ** The parts of the client                                           *)
(* ===================================================================== *)

Lemma connect_attempts : connect = while_true attempt.
Proof. reflexivity. Qed.

Lemma receive_loop_raises ws msgs e rest :
  yields (receive_loop ws) (map Returns msgs ++ Raises e :: rest)
         (received msgs ++ [ERecv], Finished (inl e) rest)
         (3 * List.length msgs + 2).
Proof.
  induction msgs as [|m msgs IH]; simpl.
  - apply yields_while_raises. apply yields_seq_raises. apply yields_recv_raises.
  - eapply yields_weaken;
      [| refine (yields_while_again _ _ [ERecv; EPrint (message_line m)] tt _ _ 2 _ _ IH)].
    + lia.
    + eapply (yields_seq (websocket_recv ws)
               (fun response => print (message_line response))
               _ [ERecv] m _ [EPrint (message_line m)] _ 1 2).
      * apply yields_recv_returns.
      * apply yields_print.
Qed.

Lemma receive_loop_blocked ws msgs :
  yields (receive_loop ws) (map Returns msgs)
         (received msgs ++ [ERecv], Blocked)
         (3 * List.length msgs + 1).
Proof.
  induction msgs as [|m msgs IH]; simpl.
  - apply yields_while_blocked. apply yields_seq_blocked. apply yields_recv_blocked.
  - eapply yields_weaken;
      [| refine (yields_while_again _ _ [ERecv; EPrint (message_line m)] tt _ _ 2 _ _ IH)].
    + lia.
    + eapply (yields_seq (websocket_recv ws)
               (fun response => print (message_line response))
               _ [ERecv] m _ [EPrint (message_line m)] _ 1 2).
      * apply yields_recv_returns.
      * apply yields_print.
Qed.

(** The body of the [async with] block. *)
Lemma session_send_blocked ws :
  yields (session ws) [] ([EPrint connected_line; ESend greeting], Blocked) 2.
Proof.
  eapply (yields_seq (print connected_line) _ _ [EPrint connected_line] tt _
            [ESend greeting] _ 1 1).
  - apply yields_print.
  - apply yields_seq_blocked. apply yields_send_blocked.
Qed.

Lemma session_send_raises ws e s :
  yields (session ws) (Raises e :: s)
         ([EPrint connected_line; ESend greeting], Finished (inl e) s) 3.
Proof.
  eapply (yields_seq (print connected_line) _ _ [EPrint connected_line] tt _
            [ESend greeting] _ 1 2).
  - apply yields_print.
  - apply yields_seq_raises. apply yields_send_raises.
Qed.

Lemma session_recv_blocked ws v msgs :
  yields (session ws) (Returns v :: map Returns msgs)
         ([EPrint connected_line; ESend greeting] ++ received msgs ++ [ERecv],
          Blocked)
         (3 * List.length msgs + 3).
Proof.
  costing.
  { eapply (yields_seq (print connected_line) _ _ [EPrint connected_line] tt _
              ([ESend greeting] ++ received msgs ++ [ERecv])).
    - apply yields_print.
    - eapply (yields_seq (websocket_send ws greeting) (fun _ => receive_loop ws)
                _ [ESend greeting] tt).
      + apply yields_send_returns.
      + apply receive_loop_blocked. }
  lia.
Qed.

Lemma session_recv_raises ws v msgs e rest :
  yields (session ws) (Returns v :: map Returns msgs ++ Raises e :: rest)
         ([EPrint connected_line; ESend greeting] ++ received msgs ++ [ERecv],
          Finished (inl e) rest)
         (S (3 * List.length msgs + 3)).
Proof.
  costing.
  { eapply (yields_seq (print connected_line) _ _ [EPrint connected_line] tt _
              ([ESend greeting] ++ received msgs ++ [ERecv])).
    - apply yields_print.
    - eapply (yields_seq (websocket_send ws greeting) (fun _ => receive_loop ws)
                _ [ESend greeting] tt).
      + apply yields_send_returns.
      + apply receive_loop_raises. }
  lia.
Qed.

(** One turn of the outer loop, from what happens inside the block. *)
Lemma attempt_connect_blocked :
  yields attempt [] ([EConnect endpoint], Blocked) 1.
Proof.
  apply yields_seq_blocked, yields_try_blocked, yields_with_enter_blocked.
  apply yields_connect_blocked.
Qed.

Lemma attempt_connect_fatal e s :
  recoverable e = false ->
  yields attempt (Raises e :: s) ([EConnect endpoint], Finished (inl e) s) 2.
Proof.
  intros He.
  apply yields_seq_raises, yields_try_uncaught; [|exact He].
  apply yields_with_enter_raises, yields_connect_raises.
Qed.

Lemma attempt_connect_retry e s :
  recoverable e = true ->
  yields attempt (Raises e :: s)
         ([EConnect endpoint; EPrint (failure_line e); ESleep 5],
          Finished (inr tt) s) 4.
Proof.
  intros He.
  eapply (yields_seq _ (fun _ => time_sleep 5) _
            [EConnect endpoint; EPrint (failure_line e)] tt _ [ESleep 5] _ 2 2).
  - eapply (yields_try_caught _ _ _ _ [EConnect endpoint] e _
              [EPrint (failure_line e)] _ 1 2).
    + apply yields_with_enter_raises, yields_connect_raises.
    + exact He.
    + apply yields_print.
  - apply yields_sleep.
Qed.

Lemma attempt_session_blocked v s tr c :
  yields (session tt) s (tr, Blocked) c ->
  yields attempt (Returns v :: s)
         ([EConnect endpoint; EOpen] ++ tr, Blocked) (c + 1).
Proof.
  intros Hs.
  apply yields_seq_blocked, yields_try_blocked.
  eapply (yields_with_blocked _ session _ [EConnect endpoint; EOpen] tt).
  - apply yields_connect_returns.
  - exact Hs.
Qed.

Lemma attempt_session_fatal v s tr e s' c :
  yields (session tt) s (tr, Finished (inl e) s') (S c) ->
  recoverable e = false ->
  yields attempt (Returns v :: s)
         ([EConnect endpoint; EOpen] ++ tr ++ [EClose], Finished (inl e) s')
         (S (S (c + 1))).
Proof.
  intros Hs He.
  apply yields_seq_raises, yields_try_uncaught; [|exact He].
  eapply (yields_with_exit _ session _ [EConnect endpoint; EOpen] tt).
  - apply yields_connect_returns.
  - exact Hs.
Qed.

Lemma attempt_session_retry v s tr e s' c :
  yields (session tt) s (tr, Finished (inl e) s') (S c) ->
  recoverable e = true ->
  yields attempt (Returns v :: s)
         ([EConnect endpoint; EOpen] ++ tr
            ++ [EClose; EPrint (failure_line e); ESleep 5],
          Finished (inr tt) s')
         (S (c + 5)).
Proof.
  intros Hs He.
  replace ([EConnect endpoint; EOpen] ++ tr
             ++ [EClose; EPrint (failure_line e); ESleep 5])
    with ((([EConnect endpoint; EOpen] ++ tr ++ [EClose])
             ++ [EPrint (failure_line e)]) ++ [ESleep 5])
    by (simpl; rewrite <- !app_assoc; reflexivity).
  costing.
  { eapply (yields_seq _ (fun _ => time_sleep 5) _
              (([EConnect endpoint; EOpen] ++ tr ++ [EClose])
                 ++ [EPrint (failure_line e)]) tt _ [ESleep 5]).
    - eapply (yields_try_caught _ _ _ _
                ([EConnect endpoint; EOpen] ++ tr ++ [EClose]) e _
                [EPrint (failure_line e)] _ _ 2).
      + eapply (yields_with_exit _ session _ [EConnect endpoint; EOpen] tt).
        * apply yields_connect_returns.
        * exact Hs.
      + exact He.
      + apply yields_print.
    - apply yields_sleep. }
  simpl; lia.
Qed.

(* ===================================================================== *)
(** ** The client is the machine                                         *)
(* ===================================================================== *)

(** Every script is a run of returned values, then nothing or a raise. *)
Lemma script_split (s : list response) :
  (exists msgs, s = map Returns msgs) \/
  (exists msgs e rest, s = map Returns msgs ++ Raises e :: rest).
Proof.
  induction s as [|[v|e] s IH].
  - left. now exists [].
  - destruct IH as [(msgs & ->) | (msgs & e & rest & ->)].
    + left. now exists (v :: msgs).
    + right. now exists (v :: msgs), e, rest.
  - right. now exists [], e, s.
Qed.

Lemma machine_receiving (msgs : list string) (tail : list response) :
  machine Receiving (map Returns msgs ++ tail) =
  emit (received msgs) (machine Receiving tail).
Proof.
  induction msgs as [|m msgs IH]; simpl.
  - now rewrite emit_nil.
  - rewrite IH, emit_emit. reflexivity.
Qed.

Lemma machine_receiving_all (msgs : list string) :
  machine Receiving (map Returns msgs) = (received msgs ++ [ERecv], Blocked).
Proof.
  rewrite <- (app_nil_r (map Returns msgs)), machine_receiving. reflexivity.
Qed.

(** [connect] and the machine agree on every script, within the fuel
    [run] gives. *)
Lemma connect_machine (n : nat) :
  forall s, List.length s <= n ->
    yields connect s (machine Connecting s) (5 * List.length s + 2).
Proof.
  rewrite connect_attempts.
  induction n as [|n IH]; intros s Hn.
  - destruct s; [|simpl in Hn; lia].
    costing; [apply yields_while_blocked, attempt_connect_blocked | simpl; lia].
  - destruct s as [|[v|e] s].
    + costing; [apply yields_while_blocked, attempt_connect_blocked | simpl; lia].
    + destruct s as [|[v'|e] s3].
      * eapply yields_result.
        -- apply yields_while_blocked.
           apply (attempt_session_blocked v [] _ _ (session_send_blocked tt)).
        -- reflexivity.
        -- simpl; lia.
      * destruct (script_split s3) as [(msgs & ->) | (msgs & e & rest & ->)].
        -- eapply yields_result.
           ++ apply yields_while_blocked.
              apply (attempt_session_blocked v _ _ _
                       (session_recv_blocked tt v' msgs)).
           ++ simpl machine. rewrite machine_receiving_all. same_result.
           ++ simpl. rewrite length_map. lia.
        -- destruct (recoverable e) eqn:He.
           ++ eapply yields_result.
              ** eapply yields_while_again.
                 --- apply (attempt_session_retry v _ _ e rest _
                              (session_recv_raises tt v' msgs e rest) He).
                 --- apply (IH rest). simpl in Hn. rewrite length_app in Hn.
                     simpl in Hn. lia.
              ** simpl machine. rewrite machine_receiving. simpl machine.
                 rewrite He. same_result.
              ** simpl. rewrite !length_app, length_map. simpl. lia.
           ++ eapply yields_result.
              ** apply yields_while_raises.
                 apply (attempt_session_fatal v _ _ e rest _
                          (session_recv_raises tt v' msgs e rest) He).
              ** simpl machine. rewrite machine_receiving. simpl machine.
                 rewrite He. same_result.
              ** simpl. rewrite !length_app, length_map. simpl. lia.
      * destruct (recoverable e) eqn:He.
        -- eapply yields_result.
           ++ eapply yields_while_again.
              ** apply (attempt_session_retry v _ _ e s3 _
                          (session_send_raises tt e s3) He).
              ** apply (IH s3). simpl in Hn. lia.
           ++ simpl machine. rewrite He. same_result.
           ++ simpl. lia.
        -- eapply yields_result.
           ++ apply yields_while_raises.
              apply (attempt_session_fatal v _ _ e s3 _
                       (session_send_raises tt e s3) He).
           ++ simpl machine. rewrite He. same_result.
           ++ simpl. lia.
    + destruct (recoverable e) eqn:He.
      * eapply yields_result.
        -- eapply yields_while_again.
           ++ apply (attempt_connect_retry e s He).
           ++ apply (IH s). simpl in Hn. lia.
        -- simpl machine. rewrite He. same_result.
        -- simpl. lia.
      * eapply yields_result.
        -- apply yields_while_raises, (attempt_connect_fatal e s He).
        -- simpl machine. rewrite He. same_result.
        -- simpl. lia.
Qed.

(** The run of the client on any script is the machine's. *)
Lemma run_machine (s : list response) : run s = machine Connecting s.
Proof. apply (connect_machine (List.length s) s (le_n _)). lia. Qed.

(* ===================================================================== *)
(** ** The machine, piece by piece                                       *)
(* ===================================================================== *)

Lemma machine_starts (p : phase) (s : list response) :
  exists tail, fst (machine p s) = pending p :: tail.
Proof.
  destruct s as [|[v|e] s]; simpl.
  - now exists [].
  - destruct p; simpl; eexists; reflexivity.
  - eexists; reflexivity.
Qed.

Lemma pending_inj (p q : phase) : pending p = pending q -> p = q.
Proof. destruct p, q; simpl; intros H; try reflexivity; discriminate. Qed.

(** A client that is waiting after [pre] goes on from its phase. *)
Lemma machine_app (pre : list response) :
  forall p, snd (machine p pre) = Blocked ->
    exists tr0 p',
      machine p pre = (tr0 ++ [pending p'], Blocked) /\
      forall s2, machine p (pre ++ s2) = emit tr0 (machine p' s2).
Proof.
  induction pre as [|[v|e] pre IH]; intros p Hb.
  - exists [], p. split; [reflexivity|]. intros s2. simpl. now rewrite emit_nil.
  - destruct p; simpl in Hb |- *.
    + destruct (IH Announcing Hb) as (tr0 & p' & E & F).
      exists ([EConnect endpoint; EOpen; EPrint connected_line] ++ tr0), p'.
      split; [rewrite E; reflexivity|].
      intros s2. rewrite F, emit_emit. reflexivity.
    + destruct (IH Receiving Hb) as (tr0 & p' & E & F).
      exists ([ESend greeting] ++ tr0), p'.
      split; [rewrite E; reflexivity|].
      intros s2. rewrite F, emit_emit. reflexivity.
    + destruct (IH Receiving Hb) as (tr0 & p' & E & F).
      exists ([ERecv; EPrint (message_line v)] ++ tr0), p'.
      split; [rewrite E; reflexivity|].
      intros s2. rewrite F, emit_emit. reflexivity.
  - simpl in Hb |- *. destruct (recoverable e); [|discriminate].
    destruct (IH Connecting Hb) as (tr0 & p' & E & F).
    exists ((pending p :: closing p)
              ++ [EPrint (failure_line e); ESleep 5] ++ tr0), p'.
    split.
    + rewrite E. unfold emit; simpl. rewrite <- !app_assoc. reflexivity.
    + intros s2. rewrite F, !emit_emit. rewrite <- !app_assoc. reflexivity.
Qed.

(** What a raise does to a waiting client. *)
Lemma machine_raise (pre rest : list response) (e : exn) :
  snd (machine Connecting pre) = Blocked ->
  exists close,
    (close = [] \/ close = [EClose]) /\
    machine Connecting (pre ++ Raises e :: rest) =
      emit (fst (machine Connecting pre) ++ close)
           (if recoverable e
            then emit [EPrint (failure_line e); ESleep 5]
                      (machine Connecting rest)
            else ([], Finished (inl e) rest)).
Proof.
  intros Hb. destruct (machine_app pre Connecting Hb) as (tr0 & p' & E & F).
  exists (closing p'). split; [destruct p'; simpl; auto|].
  rewrite F, E. simpl machine. rewrite emit_emit. simpl fst.
  rewrite <- app_assoc. reflexivity.
Qed.

(** Properties of every trace of the machine follow from its six moves. *)
Lemma machine_invariant (P : phase -> list event -> Prop) :
  (forall p, P p [pending p]) ->
  (forall tr, P Announcing tr ->
     P Connecting ([EConnect endpoint; EOpen; EPrint connected_line] ++ tr)) ->
  (forall tr, P Receiving tr -> P Announcing ([ESend greeting] ++ tr)) ->
  (forall v tr, P Receiving tr ->
     P Receiving ([ERecv; EPrint (message_line v)] ++ tr)) ->
  (forall p e tr, recoverable e = true -> P Connecting tr ->
     P p ((pending p :: closing p)
            ++ [EPrint (failure_line e); ESleep 5] ++ tr)) ->
  (forall p e, recoverable e = false -> P p ((pending p :: closing p) ++ [])) ->
  forall s p, P p (fst (machine p s)).
Proof.
  intros H0 H1 H2 H3 H4 H5.
  induction s as [|[v|e] s IH]; intros p.
  - apply H0.
  - destruct p; simpl.
    + apply (H1 _ (IH Announcing)).
    + apply (H2 _ (IH Receiving)).
    + apply (H3 v _ (IH Receiving)).
  - simpl machine. destruct (recoverable e) eqn:He.
    + apply (H4 p e _ He (IH Connecting)).
    + apply (H5 p e He).
Qed.

Lemma machine_outcome (s : list response) :
  forall p,
    snd (machine p s) = Blocked \/
    exists e rest,
      snd (machine p s) = Finished (inl e) rest /\
      recoverable e = false /\ In (Raises e) s.
Proof.
  induction s as [|[v|e] s IH]; intros p.
  - now left.
  - assert (N : forall q, snd (machine q s) = Blocked \/
                exists e rest, snd (machine q s) = Finished (inl e) rest /\
                  recoverable e = false /\ In (Raises e) (Returns v :: s)).
    { intros q. destruct (IH q) as [B | (e & rest & E & He & Hin)];
        [now left | right; exists e, rest; simpl; auto]. }
    destruct p; simpl; apply N.
  - simpl machine. destruct (recoverable e) eqn:He; simpl.
    + destruct (IH Connecting) as [B | (e' & rest & E & He' & Hin)];
        [now left | right; exists e', rest; simpl; auto].
    + right. exists e, s. simpl; auto.
Qed.

Lemma machine_sequential (s : list response) (p : phase) :
  sequential (held p) (fst (machine p s)).
Proof.
  revert s p. apply (machine_invariant (fun p tr => sequential (held p) tr)).
  - intros []; simpl; repeat split; try lia; discriminate.
  - intros tr H. simpl; repeat split; try lia; try discriminate. exact H.
  - intros tr H. simpl; repeat split; try lia; try discriminate. exact H.
  - intros v tr H. simpl; repeat split; try lia; try discriminate. exact H.
  - intros p e tr _ H.
    destruct p; simpl; repeat split; try lia; try discriminate; exact H.
  - intros p e _. destruct p; simpl; repeat split; try lia; discriminate.
Qed.

Lemma open_handles_cons (h : Z) (ev : event) (tr : list event) :
  open_handles h (ev :: tr) = open_handles (open_handles h [ev]) tr.
Proof. destruct ev; reflexivity. Qed.

Lemma sequential_prefix (before after : list event) :
  forall h, sequential h (before ++ after) ->
    (0 <= open_handles h before <= 1)%Z /\
    (forall ev after', after = ev :: after' ->
       is_connect ev || is_sleep ev = true -> open_handles h before = 0%Z).
Proof.
  induction before as [|ev0 before IH]; intros h H.
  - simpl in *. destruct after as [|ev after].
    + split; [exact H | discriminate].
    + destruct H as (B & Q & _). split; [exact B|].
      intros ev' after' E Hq. injection E as <- <-. now apply Q.
  - rewrite open_handles_cons. apply IH. simpl in H. apply H.
Qed.

Lemma split_attempts_concat (tr : list event) :
  fst (split_attempts tr) ++ List.concat (snd (split_attempts tr)) = tr.
Proof.
  induction tr as [|ev tr IH]; [reflexivity|].
  simpl. destruct (split_attempts tr) as [cur segs]. simpl in IH.
  destruct (is_connect ev); simpl; now rewrite IH.
Qed.

Lemma machine_greeting (s : list response) (p : phase) :
  since_connect_ok p (fst (split_attempts (fst (machine p s)))) /\
  Forall greeting_ok (snd (split_attempts (fst (machine p s)))).
Proof.
  revert s p.
  apply (machine_invariant (fun p tr =>
    since_connect_ok p (fst (split_attempts tr)) /\
    Forall greeting_ok (snd (split_attempts tr)))).
  - intros []; simpl; repeat split; repeat constructor.
  - intros tr. simpl. destruct (split_attempts tr) as [cur segs]. simpl.
    intros ((O & S1 & S2) & F). split; [reflexivity|].
    constructor; [|exact F].
    unfold greeting_ok. simpl. now rewrite S1, S2.
  - intros tr. simpl. destruct (split_attempts tr) as [cur segs]. simpl.
    intros ((O & S1 & S2) & F). split; [|exact F].
    now rewrite O, S1, S2.
  - intros v tr. simpl. destruct (split_attempts tr) as [cur segs]. simpl.
    intros ((O & S1 & S2) & F). split; [|exact F].
    now rewrite O, S1.
  - intros p e tr _.
    destruct p; simpl; destruct (split_attempts tr) as [cur segs]; simpl;
      intros (C & F); subst cur.
    + split; [reflexivity|]. constructor; [reflexivity | exact F].
    + split; [repeat split | exact F].
    + split; [repeat split | exact F].
  - intros p e _. destruct p; simpl; repeat split; repeat constructor.
Qed.

Lemma pauses_app (a b : list event) : pauses (a ++ b) = pauses a ++ pauses b.
Proof. induction a as [|[] a IH]; simpl; rewrite ?IH; reflexivity. Qed.

Lemma connects_app (a b : list event) : connects (a ++ b) = connects a + connects b.
Proof. unfold connects. now rewrite filter_app, length_app. Qed.

Lemma received_quiet (msgs : list string) :
  connects (received msgs) = 0 /\ pauses (received msgs) = [].
Proof. induction msgs as [|m msgs [IH1 IH2]]; simpl; auto. Qed.

Lemma split_attempts_app (body tr : list event) :
  connects body = 0 ->
  split_attempts (body ++ tr) =
  (body ++ fst (split_attempts tr), snd (split_attempts tr)).
Proof.
  induction body as [|ev body IH]; intros H; simpl.
  - now destruct (split_attempts tr).
  - unfold connects in H. simpl in H.
    destruct (is_connect ev) eqn:C; [discriminate|].
    rewrite (IH H). reflexivity.
Qed.

(** An attempt that fails with one of the three classes, wherever it
    fails: one call to connect, one pause of 5, and the client is back at
    the head of its loop. *)
Lemma machine_failing (vs : list string) (e : exn) (rest : list response) :
  recoverable e = true ->
  exists body,
    machine Connecting (failing (vs, e) ++ rest) =
      emit (EConnect endpoint :: body) (machine Connecting rest) /\
    connects body = 0 /\ pauses body = [5%Z].
Proof.
  intros He. unfold failing. simpl fst. simpl snd. rewrite <- app_assoc.
  destruct vs as [|v [|v' msgs]].
  - exists [EPrint (failure_line e); ESleep 5].
    simpl. rewrite He. auto.
  - exists [EOpen; EPrint connected_line; ESend greeting; EClose;
            EPrint (failure_line e); ESleep 5].
    simpl. rewrite He. auto.
  - exists ([EOpen; EPrint connected_line; ESend greeting]
              ++ received msgs
              ++ [ERecv; EClose; EPrint (failure_line e); ESleep 5]).
    destruct (received_quiet msgs) as [Q1 Q2].
    split; [|split].
    + simpl. rewrite machine_receiving. simpl. rewrite He.
      unfold emit; simpl. rewrite <- !app_assoc. reflexivity.
    + rewrite !connects_app, Q1. reflexivity.
    + rewrite !pauses_app, Q2. reflexivity.
Qed.

(** A waiting client has done more than it was answered. *)
Lemma machine_progress (s : list response) :
  forall p, snd (machine p s) = Blocked ->
    List.length s < List.length (fst (machine p s)).
Proof.
  induction s as [|[v|e] s IH]; intros p Hb.
  - simpl. lia.
  - destruct p; simpl in Hb |- *; specialize (IH _ Hb); lia.
  - simpl in Hb |- *. destruct (recoverable e); [|discriminate].
    simpl in Hb. specialize (IH Connecting Hb).
    destruct p; simpl; lia.
Qed.

(** An attempt in which nothing has failed yet: one call to connect, no
    pause, and the client waits. *)
Lemma machine_unfailed (vs : list string) :
  exists body,
    machine Connecting (map Returns vs) = (EConnect endpoint :: body, Blocked) /\
    connects body = 0 /\ pauses body = [].
Proof.
  destruct vs as [|v [|v' msgs]].
  - exists []. auto.
  - exists [EOpen; EPrint connected_line; ESend greeting]. auto.
  - exists ([EOpen; EPrint connected_line; ESend greeting]
              ++ received msgs ++ [ERecv]).
    destruct (received_quiet msgs) as [Q1 Q2].
    split; [|split].
    + simpl. rewrite machine_receiving_all. reflexivity.
    + rewrite !connects_app, Q1. reflexivity.
    + rewrite !pauses_app, Q2. reflexivity.
Qed.

(** The fuel [run] gives is enough on every script. *)
Lemma run_has_fuel (s : list response) : snd (run s) <> OutOfFuel.
Proof.
  rewrite run_machine.
  destruct (machine_outcome s Connecting) as [B | (e & rest & E & _)].
  - rewrite B. discriminate.
  - rewrite E. discriminate.
Qed.

(* ===================================================================== *)
(** ** Scenarios                                                          *)
(* ===================================================================== *)

(** The server refuses three times, then accepts. *)
Example scenario_refused_three_times :
  let refused := mk_exn ConnectionRefusedError "[Errno 111] Connect call failed" in
  run [Raises refused; Raises refused; Raises refused; Returns "websocket"] =
  ([EConnect endpoint;
    EPrint "Connection failed: [Errno 111] Connect call failed. Retrying...";
    ESleep 5;
    EConnect endpoint;
    EPrint "Connection failed: [Errno 111] Connect call failed. Retrying...";
    ESleep 5;
    EConnect endpoint;
    EPrint "Connection failed: [Errno 111] Connect call failed. Retrying...";
    ESleep 5;
    EConnect endpoint; EOpen; EPrint "Connected to server";
    ESend "Hello, Server!"],
   Blocked).
Proof. reflexivity. Qed.

(** The server accepts, sends "A" and "B", then closes. *)
Example scenario_two_messages_then_close :
  let closed := mk_exn ConnectionClosedOK "received 1000 (OK); then sent 1000 (OK)" in
  run [Returns "websocket"; Returns "None"; Returns "A"; Returns "B"; Raises closed] =
  ([EConnect endpoint; EOpen; EPrint "Connected to server";
    ESend "Hello, Server!";
    ERecv; EPrint "Message from server: A";
    ERecv; EPrint "Message from server: B";
    ERecv; EClose;
    EPrint "Connection failed: received 1000 (OK); then sent 1000 (OK). Retrying...";
    ESleep 5;
    EConnect endpoint],
   Blocked).
Proof. reflexivity. Qed.

(** A reset of the connection is not of the three classes. *)
Example scenario_connection_reset :
  let reset := mk_exn ConnectionResetError "[Errno 104] Connection reset by peer" in
  run [Returns "websocket"; Returns "None"; Raises reset; Returns "late"] =
  ([EConnect endpoint; EOpen; EPrint "Connected to server";
    ESend "Hello, Server!"; ERecv; EClose],
   Finished (inl reset) [Returns "late"]).
Proof. reflexivity. Qed.

(** [KeyboardInterrupt] is of none of the three classes: once it reaches
    the top level the status is 130.  (How an interrupt unwinds a coroutine
    that is suspended in the event loop is not part of this model, so
    nothing is said of the events it leaves behind.) *)
Example scenario_keyboard_interrupt :
  let interrupt := mk_exn KeyboardInterrupt EmptyString in
  recoverable interrupt = false /\
  exit_status (snd (run [Returns "websocket"; Returns "None"; Raises interrupt]))
  = Some 130%Z.
Proof. split; reflexivity. Qed.

(* ===================================================================== *)
(** ** Properties of the client                                           *)
(* ===================================================================== *)

(** C1 (retry invariant).  Let N attempts in a row fail, each at its
    connect, its send or one of its receives, with an exception of one of
    the three classes, and let attempt N+1 be under way: the environment has
    answered [last] in it (nothing, when the call to connect is the next
    event) and raised nothing.  Then the client has called connect exactly
    N+1 times; each of the N failed attempts holds exactly one pause, of 5,
    which therefore lies between it and the next call to connect, and
    attempt N+1 holds none; and the client has not ended: it is waiting. *)
Theorem retry_invariant (fails : list (list string * exn)) (last : list string) :
  Forall (fun a => recoverable (snd a) = true) fails ->
  let r := run (flat_map failing fails ++ map Returns last) in
  connects (fst r) = List.length fails + 1 /\
  map pauses (attempts_of (fst r)) = repeat [5%Z] (List.length fails) ++ [[]] /\
  snd r = Blocked.
Proof.
  intros H r. subst r. rewrite run_machine. unfold attempts_of.
  induction H as [|[vs e] fails He _ IH].
  - destruct (machine_unfailed last) as (body & E & C & P).
    simpl flat_map. simpl app. rewrite E. simpl fst. simpl snd.
    split; [|split; [|reflexivity]].
    + change (EConnect endpoint :: body) with ([EConnect endpoint] ++ body).
      rewrite connects_app, C. reflexivity.
    + simpl split_attempts.
      rewrite <- (app_nil_r body), (split_attempts_app body [] C).
      simpl. rewrite app_nil_r, P. reflexivity.
  - simpl in He. simpl flat_map. rewrite <- app_assoc.
    destruct (machine_failing vs e (flat_map failing fails ++ map Returns last) He)
      as (body & -> & C & P).
    destruct IH as (IH1 & IH2 & IH3).
    destruct (machine_starts Connecting
                (flat_map failing fails ++ map Returns last)) as (tail & T).
    unfold emit. simpl fst. simpl snd.
    split; [|split].
    + change (EConnect endpoint :: body ++ ?t)
        with ([EConnect endpoint] ++ body ++ t).
      rewrite !connects_app, C, IH1. simpl. lia.
    + simpl split_attempts. rewrite (split_attempts_app body _ C).
      simpl. rewrite pauses_app, P, IH2.
      rewrite T. simpl. destruct (split_attempts tail); reflexivity.
    + exact IH3.
Qed.

Lemma retry_invariant_witness :
  let fails :=
    [([], mk_exn gaierror "[Errno -2] Name or service not known");
     ([], mk_exn ConnectionRefusedError "[Errno 111] Connect call failed");
     (["websocket"; "None"; "A"],
      mk_exn ConnectionClosedError "no close frame received or sent")]
  in
  let last := ["websocket"; "None"; "B"] in
  Forall (fun a => recoverable (snd a) = true) fails /\
  connects (fst (run (flat_map failing fails ++ map Returns last))) = 4 /\
  map pauses (attempts_of (fst (run (flat_map failing fails ++ map Returns last))))
  = [[5%Z]; [5%Z]; [5%Z]; []] /\
  snd (run (flat_map failing fails ++ map Returns last)) = Blocked.
Proof.
  split.
  - repeat constructor.
  - apply (retry_invariant
      [([], mk_exn gaierror "[Errno -2] Name or service not known");
       ([], mk_exn ConnectionRefusedError "[Errno 111] Connect call failed");
       (["websocket"; "None"; "A"],
        mk_exn ConnectionClosedError "no close frame received or sent")]
      ["websocket"; "None"; "B"]).
    repeat constructor.
Defined.

(** C2 (message ordering).  Take the client about to connect, after any
    script [pre], and let the connection succeed, the greeting go out and
    the messages [msgs] arrive in that order.  Then what the client does is
    exactly: connect, print "Connected to server", send the greeting, and
    for each message in order one [recv()] followed by printing
    "Message from server: " and the message; it then waits for the next
    message.  So the lines printed over the connection are those of the
    messages, in order, one per message. *)
Theorem messages_printed_in_order
    (pre : list response) (tr0 : list event) (v v' : string)
    (msgs : list string) :
  run pre = (tr0 ++ [EConnect endpoint], Blocked) ->
  let r := run (pre ++ Returns v :: Returns v' :: map Returns msgs) in
  r = (tr0 ++ [EConnect endpoint; EOpen; EPrint "Connected to server";
               ESend "Hello, Server!"]
          ++ flat_map (fun m => [ERecv; EPrint ("Message from server: " ++ m)])
                      msgs
          ++ [ERecv],
       Blocked) /\
  printed (fst r) =
    printed tr0 ++ "Connected to server"
      :: map (fun m => ("Message from server: " ++ m)%string) msgs.
Proof.
  rewrite !run_machine. intros Hpre r. subst r.
  assert (Hb : snd (machine Connecting pre) = Blocked) by now rewrite Hpre.
  destruct (machine_app pre Connecting Hb) as (t0 & p' & E & F).
  rewrite Hpre in E. injection E as E.
  apply app_inj_tail in E. destruct E as [<- E].
  apply (pending_inj Connecting p') in E. subst p'.
  rewrite F. simpl machine. rewrite machine_receiving_all.
  assert (G : forall t, printed (t ++ EConnect endpoint :: EOpen
                 :: EPrint "Connected to server" :: ESend "Hello, Server!"
                 :: received msgs ++ [ERecv]) =
              printed t ++ "Connected to server"
                :: map (fun m => ("Message from server: " ++ m)%string) msgs).
  { assert (P1 : forall a b, printed (a ++ b) = printed a ++ printed b).
    { induction a as [|[] a IHa]; intros b; simpl; rewrite ?IHa; reflexivity. }
    intros t. rewrite P1. f_equal. simpl. f_equal. rewrite P1. simpl.
    rewrite app_nil_r. unfold received.
    induction msgs as [|m msgs IHm]; simpl; [reflexivity|].
    now rewrite IHm. }
  split.
  - reflexivity.
  - apply G.
Qed.

Lemma messages_printed_in_order_witness :
  let refused := mk_exn ConnectionRefusedError "[Errno 111] Connect call failed" in
  let before :=
    [EConnect endpoint;
     EPrint "Connection failed: [Errno 111] Connect call failed. Retrying...";
     ESleep 5] in
  run [Raises refused] = (before ++ [EConnect endpoint], Blocked) /\
  run ([Raises refused] ++ Returns "websocket" :: Returns "None" :: map Returns ["A"; "B"; "A"])
  = (before ++ [EConnect endpoint; EOpen; EPrint "Connected to server";
                ESend "Hello, Server!"]
       ++ [ERecv; EPrint "Message from server: A";
           ERecv; EPrint "Message from server: B";
           ERecv; EPrint "Message from server: A"]
       ++ [ERecv],
     Blocked) /\
  printed (fst (run ([Raises refused] ++ Returns "websocket" :: Returns "None"
                       :: map Returns ["A"; "B"; "A"])))
  = ["Connection failed: [Errno 111] Connect call failed. Retrying...";
     "Connected to server";
     "Message from server: A"; "Message from server: B";
     "Message from server: A"].
Proof.
  split.
  - reflexivity.
  - apply (messages_printed_in_order
      [Raises (mk_exn ConnectionRefusedError "[Errno 111] Connect call failed")]
      [EConnect endpoint;
       EPrint "Connection failed: [Errno 111] Connect call failed. Retrying...";
       ESleep 5]
      "websocket" "None" ["A"; "B"; "A"]).
    reflexivity.
Defined.

(** After attempts that all failed with exceptions of the three classes the
    client is about to connect again, and goes on from there. *)
Lemma machine_after_failures (fails : list (list string * exn)) :
  Forall (fun a => recoverable (snd a) = true) fails ->
  exists before,
    machine Connecting (flat_map failing fails)
    = (before ++ [EConnect endpoint], Blocked) /\
    forall s2,
      machine Connecting (flat_map failing fails ++ s2)
      = emit before (machine Connecting s2).
Proof.
  intros H.
  assert (E : exists before,
             machine Connecting (flat_map failing fails)
             = (before ++ [EConnect endpoint], Blocked)).
  { induction H as [|[vs e] fails He _ (before & IH)].
    - now exists [].
    - simpl in He. simpl flat_map.
      destruct (machine_failing vs e (flat_map failing fails) He)
        as (body & -> & _).
      exists ((EConnect endpoint :: body) ++ before).
      rewrite IH. unfold emit; simpl. rewrite <- app_assoc. reflexivity. }
  destruct E as (before & E).
  assert (Hb : snd (machine Connecting (flat_map failing fails)) = Blocked)
    by now rewrite E.
  destruct (machine_app (flat_map failing fails) Connecting Hb)
    as (tr0 & p' & E' & F).
  rewrite E in E'. injection E' as E'.
  apply app_inj_tail in E'. destruct E' as [<- E'].
  apply (pending_inj Connecting p') in E'. subst p'.
  exists before. split; [exact E | exact F].
Qed.

(** C3 (single greeting).  Cut the trace of any run into its attempts, one
    per call to connect (nothing is left over).  In an attempt in which the
    connection was opened, exactly one payload is sent, "Hello, Server!",
    and it is sent before the first [recv()]; in an attempt in which it was
    not, nothing is sent.  And the greeting is sent: whenever the call to
    connect that follows any number of failed attempts is answered with a
    connection, what the client does next is to print "Connected to server"
    and to send "Hello, Server!", whatever the script holds after that. *)
Theorem single_greeting_per_attempt (s : list response) :
  List.concat (attempts_of (fst (run s))) = fst (run s) /\
  Forall (fun a =>
            if existsb is_open a
            then sent a = ["Hello, Server!"] /\
                 sent (before_recv a) = ["Hello, Server!"]
            else sent a = [])
         (attempts_of (fst (run s))) /\
  (forall fails v rest,
     s = flat_map failing fails ++ Returns v :: rest ->
     Forall (fun a => recoverable (snd a) = true) fails ->
     exists before tail,
       run (flat_map failing fails) = (before ++ [EConnect endpoint], Blocked) /\
       fst (run s) =
         before ++ [EConnect endpoint; EOpen; EPrint "Connected to server";
                    ESend "Hello, Server!"] ++ tail).
Proof.
  rewrite run_machine. unfold attempts_of.
  destruct (machine_greeting s Connecting) as (C & F).
  split; [|split; [exact F|]].
  - rewrite <- (split_attempts_concat (fst (machine Connecting s))) at 2.
    simpl in C. now rewrite C.
  - intros fails v rest -> Hfails. rewrite run_machine.
    destruct (machine_after_failures fails Hfails) as (before & E & G).
    destruct (machine_starts Announcing rest) as (tail & T).
    exists before, tail. split; [exact E|].
    rewrite G. simpl machine. unfold emit; simpl. rewrite T. reflexivity.
Qed.

Lemma single_greeting_per_attempt_witness :
  let refused := mk_exn ConnectionRefusedError "[Errno 111] Connect call failed" in
  let s := [Raises refused; Returns "websocket"; Returns "None"; Returns "A"] in
  attempts_of (fst (run s)) =
    [[EConnect endpoint;
      EPrint "Connection failed: [Errno 111] Connect call failed. Retrying...";
      ESleep 5];
     [EConnect endpoint; EOpen; EPrint "Connected to server";
      ESend "Hello, Server!"; ERecv; EPrint "Message from server: A"; ERecv]] /\
  Forall (fun a =>
            if existsb is_open a
            then sent a = ["Hello, Server!"] /\
                 sent (before_recv a) = ["Hello, Server!"]
            else sent a = [])
         (attempts_of (fst (run s))) /\
  exists before tail,
    run (flat_map failing [([], refused)])
    = (before ++ [EConnect endpoint], Blocked) /\
    fst (run s) =
      before ++ [EConnect endpoint; EOpen; EPrint "Connected to server";
                 ESend "Hello, Server!"] ++ tail.
Proof.
  split; [reflexivity|]. split.
  - exact (proj1 (proj2 (single_greeting_per_attempt
      [Raises (mk_exn ConnectionRefusedError "[Errno 111] Connect call failed");
       Returns "websocket"; Returns "None"; Returns "A"]))).
  - apply (proj2 (proj2 (single_greeting_per_attempt
      [Raises (mk_exn ConnectionRefusedError "[Errno 111] Connect call failed");
       Returns "websocket"; Returns "None"; Returns "A"]))
      [([], mk_exn ConnectionRefusedError "[Errno 111] Connect call failed")]
      "websocket" [Returns "None"; Returns "A"]).
    + reflexivity.
    + repeat constructor.
Defined.

(** C4 (fatal isolation).  Take the client waiting on any call (connect,
    send or recv) and let that call raise an exception that is an instance
    of none of the three classes.  Then nothing is printed, there is no
    pause and no further attempt: the open connection, if any, is closed and
    the exception leaves [connect], ending the run with the rest of the
    script unread. *)
Theorem fatal_error_propagates (pre rest : list response) (e : exn) :
  snd (run pre) = Blocked ->
  recoverable e = false ->
  exists close,
    (close = [] \/ close = [EClose]) /\
    run (pre ++ Raises e :: rest) =
      (fst (run pre) ++ close, Finished (inl e) rest).
Proof.
  rewrite !run_machine. intros Hb He.
  destruct (machine_raise pre rest e Hb) as (close & Hc & E).
  exists close. split; [exact Hc|].
  rewrite E, He. unfold emit; simpl. now rewrite app_nil_r.
Qed.

Lemma fatal_error_propagates_witness :
  let pre := [Returns "websocket"; Returns "None"; Returns "A"] in
  let reset := mk_exn ConnectionResetError "[Errno 104] Connection reset by peer" in
  snd (run pre) = Blocked /\
  recoverable reset = false /\
  exists close,
    (close = [] \/ close = [EClose]) /\
    run (pre ++ Raises reset :: [Returns "B"]) =
      (fst (run pre) ++ close, Finished (inl reset) [Returns "B"]).
Proof.
  split; [reflexivity|]. split; [reflexivity|].
  apply (fatal_error_propagates
           [Returns "websocket"; Returns "None"; Returns "A"] [Returns "B"]
           (mk_exn ConnectionResetError "[Errno 104] Connection reset by peer"));
    reflexivity.
Defined.

(** C5 (backoff).  Take the client waiting on any call, after any script
    [pre], and let that call raise an exception [e] of one of the three
    classes of the [except] clause, at the initial connect or in the middle
    of a session.  Then the client (after closing the connection if one was
    open) prints the one line "Connection failed: <e>. Retrying...", sleeps
    for 5, with nothing between the two and nothing after the pause but the
    next attempt: from there it behaves as a client started afresh, whose
    first event is the call to connect. *)
Theorem backoff_then_reconnect (pre rest : list response) (e : exn) :
  snd (run pre) = Blocked ->
  recoverable e = true ->
  exists close,
    (close = [] \/ close = [EClose]) /\
    run (pre ++ Raises e :: rest) =
      emit (fst (run pre) ++ close
              ++ [EPrint ("Connection failed: " ++ exn_str e ++ ". Retrying...");
                  ESleep 5])
           (run rest) /\
    exists tail, fst (run rest) = EConnect endpoint :: tail.
Proof.
  rewrite !run_machine. intros Hb He.
  destruct (machine_raise pre rest e Hb) as (close & Hc & E).
  exists close. split; [exact Hc|]. split.
  - rewrite E, He, emit_emit, <- app_assoc. reflexivity.
  - apply (machine_starts Connecting rest).
Qed.

Lemma backoff_then_reconnect_witness :
  let pre := [Returns "websocket"; Returns "None"; Returns "A"] in
  let closed := mk_exn ConnectionClosedError "no close frame received or sent" in
  snd (run pre) = Blocked /\
  recoverable closed = true /\
  exists close,
    (close = [] \/ close = [EClose]) /\
    run (pre ++ Raises closed :: [Returns "websocket"]) =
      emit (fst (run pre) ++ close
              ++ [EPrint "Connection failed: no close frame received or sent. Retrying...";
                  ESleep 5])
           (run [Returns "websocket"]) /\
    exists tail, fst (run [Returns "websocket"]) = EConnect endpoint :: tail.
Proof.
  split; [reflexivity|]. split; [reflexivity|].
  apply (backoff_then_reconnect
           [Returns "websocket"; Returns "None"; Returns "A"] [Returns "websocket"]
           (mk_exn ConnectionClosedError "no close frame received or sent"));
    reflexivity.
Defined.

(** C6 (fixed endpoint).  Whatever the environment answers, every call to
    connect (there is at least one) names the one literal address, whose
    scheme is ws, host painters.segerend.nl and port 80; the client reads
    nothing (the only calls it makes are those of [pyE]) from which another
    address could come. *)
Theorem connects_to_fixed_endpoint (s : list response) :
  Forall (fun ev =>
            match ev with
            | EConnect uri => uri = "ws://painters.segerend.nl:80"
            | _ => True
            end) (fst (run s)) /\
  1 <= connects (fst (run s)) /\
  "ws://painters.segerend.nl:80"
  = ("ws" ++ "://" ++ "painters.segerend.nl" ++ ":" ++ "80")%string.
Proof.
  rewrite run_machine. split; [|split; [|reflexivity]].
  - apply (machine_invariant (fun _ tr =>
      Forall (fun ev => match ev with
                        | EConnect uri => uri = "ws://painters.segerend.nl:80"
                        | _ => True
                        end) tr)).
    + intros []; repeat constructor.
    + intros tr H. repeat constructor. exact H.
    + intros tr H. repeat constructor. exact H.
    + intros v tr H. repeat constructor. exact H.
    + intros p e tr _ H. destruct p; repeat constructor; exact H.
    + intros p e _. destruct p; repeat constructor.
  - destruct (machine_starts Connecting s) as (tail & ->).
    unfold connects. simpl. lia.
Qed.

(** C7 (no return).  On no script does [connect] return a value or stop
    for want of fuel: either it is waiting on a call, every answer of the
    script consumed, or an exception of none of the three classes, raised by
    the environment, has left it.  When every raise of the script is of the
    three classes it is waiting, having done more than it was answered: the
    client goes on for as long as the environment answers. *)
Theorem connect_never_returns (s : list response) :
  match snd (run s) with
  | Blocked => True
  | Finished (inl e) _ => recoverable e = false /\ In (Raises e) s
  | Finished (inr _) _ => False
  | OutOfFuel => False
  end /\
  (answers_recoverable s ->
   snd (run s) = Blocked /\ List.length s < List.length (fst (run s))).
Proof.
  rewrite run_machine.
  destruct (machine_outcome s Connecting) as [B | (e & rest & E & He & Hin)].
  - rewrite B. split; [exact I|]. intros _. split; [reflexivity|].
    now apply machine_progress.
  - rewrite E. split; [auto|].
    intros H. rewrite (H e Hin) in He. discriminate.
Qed.

Lemma connect_never_returns_witness :
  let closed := mk_exn ConnectionClosedOK "received 1000 (OK); then sent 1000 (OK)" in
  let s := [Returns "websocket"; Returns "None"; Returns "A"; Raises closed;
            Raises (mk_exn gaierror "[Errno -2] Name or service not known")] in
  answers_recoverable s /\
  snd (run s) = Blocked /\ List.length s < List.length (fst (run s)).
Proof.
  assert (H : answers_recoverable
                [Returns "websocket"; Returns "None"; Returns "A";
                 Raises (mk_exn ConnectionClosedOK
                           "received 1000 (OK); then sent 1000 (OK)");
                 Raises (mk_exn gaierror "[Errno -2] Name or service not known")]).
  { intros e [E | [E | [E | [E | [E | []]]]]]; try discriminate;
      injection E as <-; reflexivity. }
  split; [exact H|].
  exact (proj2 (connect_never_returns _) H).
Defined.

(** C8 (one connection at a time).  Cut the trace of any run anywhere.
    Before the cut the number of connections opened and not yet closed is 0
    or 1; and it is 0 when what comes next is an attempt to connect or the
    pause before one: a connection is closed before the pause that follows
    it begins. *)
Theorem one_connection_at_a_time
    (s : list response) (before after : list event) :
  fst (run s) = before ++ after ->
  (0 <= open_handles 0 before <= 1)%Z /\
  (forall ev after', after = ev :: after' ->
     is_connect ev || is_sleep ev = true -> open_handles 0 before = 0%Z).
Proof.
  rewrite run_machine. intros E. apply sequential_prefix.
  rewrite <- E. apply (machine_sequential s Connecting).
Qed.

Lemma one_connection_at_a_time_witness :
  let closed := mk_exn ConnectionClosedError "no close frame received or sent" in
  let before :=
    [EConnect endpoint; EOpen; EPrint "Connected to server";
     ESend "Hello, Server!"; ERecv; EClose;
     EPrint "Connection failed: no close frame received or sent. Retrying..."] in
  let after := [ESleep 5; EConnect endpoint] in
  fst (run [Returns "websocket"; Returns "None"; Raises closed]) = before ++ after /\
  (0 <= open_handles 0 before <= 1)%Z /\
  (forall ev after', after = ev :: after' ->
     is_connect ev || is_sleep ev = true -> open_handles 0 before = 0%Z).
Proof.
  split; [reflexivity|].
  apply (one_connection_at_a_time
           [Returns "websocket"; Returns "None";
            Raises (mk_exn ConnectionClosedError "no close frame received or sent")]).
  reflexivity.
Defined.

(** C9 (exit status).  When the run ends by itself the exit status is not
    0, and it ended because an exception of none of the three classes left
    [connect]; otherwise the client is still running and has no status, so
    that a status of 0 does not come from the client.  In particular an
    exception outside the three classes, raised at any call the client is
    waiting on, gives a status other than 0. *)
Theorem exit_status_nonzero :
  (forall s,
     match exit_status (snd (run s)) with
     | Some code =>
         code <> 0%Z /\
         exists e rest,
           snd (run s) = Finished (inl e) rest /\ recoverable e = false
     | None => snd (run s) = Blocked
     end) /\
  (forall pre rest e,
     snd (run pre) = Blocked -> recoverable e = false ->
     exists code,
       exit_status (snd (run (pre ++ Raises e :: rest))) = Some code /\
       code <> 0%Z).
Proof.
  split.
  - intros s. rewrite run_machine.
    destruct (machine_outcome s Connecting) as [B | (e & rest & E & He & Hin)].
    + now rewrite B.
    + rewrite E. simpl. destruct (isinstance e KeyboardInterrupt);
        (split; [discriminate | now exists e, rest]).
  - intros pre rest e Hb He.
    rewrite run_machine in Hb. rewrite run_machine.
    destruct (machine_raise pre rest e Hb) as (close & _ & E).
    rewrite E, He. simpl.
    destruct (isinstance e KeyboardInterrupt); eexists; split;
      try reflexivity; discriminate.
Qed.

Lemma exit_status_nonzero_witness :
  let reset := mk_exn ConnectionResetError "[Errno 104] Connection reset by peer" in
  let pre := [Returns "websocket"; Returns "None"] in
  snd (run pre) = Blocked /\
  recoverable reset = false /\
  exists code,
    exit_status (snd (run (pre ++ Raises reset :: []))) = Some code /\
    code <> 0%Z.
Proof.
  split; [reflexivity|]. split; [reflexivity|].
  apply (proj2 exit_status_nonzero
           [Returns "websocket"; Returns "None"] []
           (mk_exn ConnectionResetError "[Errno 104] Connection reset by peer"));
    reflexivity.
Defined.

(** C10 (clean close).  [ConnectionClosedOK], raised when the server closes
    the connection normally, is a subclass of [ConnectionClosed]: wherever
    it is raised the run is the same as with [ConnectionClosedError], and it
    gives the "Connection failed" line, the pause of 5 and a new attempt. *)
Theorem clean_close_is_a_failure (pre rest : list response) (detail : string) :
  snd (run pre) = Blocked ->
  run (pre ++ Raises (mk_exn ConnectionClosedOK detail) :: rest) =
  run (pre ++ Raises (mk_exn ConnectionClosedError detail) :: rest) /\
  exists close,
    (close = [] \/ close = [EClose]) /\
    run (pre ++ Raises (mk_exn ConnectionClosedOK detail) :: rest) =
      emit (fst (run pre) ++ close
              ++ [EPrint ("Connection failed: " ++ detail ++ ". Retrying...");
                  ESleep 5])
           (run rest).
Proof.
  rewrite !run_machine. intros Hb.
  destruct (machine_app pre Connecting Hb) as (tr0 & p' & E0 & F).
  rewrite !F, E0. simpl machine.
  change (recoverable (mk_exn ConnectionClosedOK detail)) with true.
  change (recoverable (mk_exn ConnectionClosedError detail)) with true.
  split; [reflexivity|].
  exists (closing p'). split; [destruct p'; simpl; auto|].
  unfold emit; simpl. rewrite <- !app_assoc. reflexivity.
Qed.

Lemma clean_close_is_a_failure_witness :
  let pre := [Returns "websocket"; Returns "None"; Returns "A"] in
  let detail := "received 1000 (OK); then sent 1000 (OK)" in
  snd (run pre) = Blocked /\
  run (pre ++ Raises (mk_exn ConnectionClosedOK detail) :: [Returns "websocket"]) =
  run (pre ++ Raises (mk_exn ConnectionClosedError detail) :: [Returns "websocket"]) /\
  exists close,
    (close = [] \/ close = [EClose]) /\
    run (pre ++ Raises (mk_exn ConnectionClosedOK detail) :: [Returns "websocket"]) =
      emit (fst (run pre) ++ close
              ++ [EPrint "Connection failed: received 1000 (OK); then sent 1000 (OK). Retrying...";
                  ESleep 5])
           (run [Returns "websocket"]).
Proof.
  split; [reflexivity|].
  apply (clean_close_is_a_failure
           [Returns "websocket"; Returns "None"; Returns "A"] [Returns "websocket"]
           "received 1000 (OK); then sent 1000 (OK)").
  reflexivity.
Defined.

(* ===================================================================== *)
(** ** Further properties of the client                                   *)
(* ===================================================================== *)

Lemma recoverable_classes (e : exn) :
  recoverable e = true <->
  In (exn_cls e)
     [ConnectionClosed; ConnectionClosedOK; ConnectionClosedError;
      ConnectionRefusedError; gaierror].
Proof.
  destruct e as [c d]. simpl exn_cls.
  destruct c; split; intros H;
    try reflexivity;
    try (vm_compute in H; discriminate);
    try (simpl; tauto);
    try (simpl in H; intuition discriminate).
Qed.

(** X1 (what the except clause catches).  Let the call the client waits on
    raise [e].  The client is still running afterwards exactly when the
    class of [e] is [ConnectionClosed], one of its two subclasses,
    [ConnectionRefusedError] or [gaierror]: an instance of a parent
    ([OSError], [ConnectionError], [WebSocketException]) or of a sibling (a
    reset, a timeout, an invalid URI or handshake) ends it. *)
Theorem except_clause_classes (pre : list response) (e : exn) :
  snd (run pre) = Blocked ->
  (snd (run (pre ++ [Raises e])) = Blocked <->
   In (exn_cls e)
      [ConnectionClosed; ConnectionClosedOK; ConnectionClosedError;
       ConnectionRefusedError; gaierror]).
Proof.
  rewrite !run_machine. intros Hb.
  destruct (machine_raise pre [] e Hb) as (close & _ & E).
  rewrite E, <- recoverable_classes.
  destruct (recoverable e); simpl; split; intros H;
    try reflexivity; discriminate.
Qed.

Lemma except_clause_classes_witness :
  let pre := [Returns "websocket"; Returns "None"] in
  let timeout := mk_exn TimeoutError "timed out" in
  let refused := mk_exn ConnectionRefusedError "[Errno 111] Connect call failed" in
  snd (run pre) = Blocked /\
  snd (run (pre ++ [Raises timeout])) <> Blocked /\
  snd (run (pre ++ [Raises refused])) = Blocked.
Proof.
  split; [reflexivity|]. split.
  - intros H.
    apply (except_clause_classes
             [Returns "websocket"; Returns "None"]
             (mk_exn TimeoutError "timed out") eq_refl) in H.
    simpl in H. intuition discriminate.
  - apply (except_clause_classes
             [Returns "websocket"; Returns "None"]
             (mk_exn ConnectionRefusedError "[Errno 111] Connect call failed")
             eq_refl).
    simpl. tauto.
Defined.

Lemma attempts_count (tr : list event) :
  List.length (snd (split_attempts tr)) = connects tr.
Proof.
  unfold connects. induction tr as [|ev tr IH]; [reflexivity|].
  simpl. destruct (split_attempts tr) as [cur segs]. simpl in IH.
  destruct (is_connect ev); simpl; now rewrite IH.
Qed.

Lemma machine_pauses (s : list response) (p : phase) :
  exists n,
    match p with
    | Connecting =>
        fst (split_attempts (fst (machine p s))) = [] /\
        map pauses (snd (split_attempts (fst (machine p s))))
        = repeat [5%Z] n ++ [[]]
    | Announcing | Receiving =>
        pauses (fst (split_attempts (fst (machine p s))))
          :: map pauses (snd (split_attempts (fst (machine p s))))
        = repeat [5%Z] n ++ [[]]
    end.
Proof.
  revert s p.
  apply (machine_invariant (fun p tr =>
    exists n,
      match p with
      | Connecting =>
          fst (split_attempts tr) = [] /\
          map pauses (snd (split_attempts tr)) = repeat [5%Z] n ++ [[]]
      | Announcing | Receiving =>
          pauses (fst (split_attempts tr)) :: map pauses (snd (split_attempts tr))
          = repeat [5%Z] n ++ [[]]
      end)).
  - intros []; exists 0; simpl; auto.
  - intros tr (n & H). exists n. simpl.
    destruct (split_attempts tr) as [cur segs]. simpl in *. auto.
  - intros tr (n & H). exists n. simpl.
    destruct (split_attempts tr) as [cur segs]. simpl in *. exact H.
  - intros v tr (n & H). exists n. simpl.
    destruct (split_attempts tr) as [cur segs]. simpl in *. exact H.
  - intros p e tr _ (n & C & H). exists (S n).
    destruct p; simpl; destruct (split_attempts tr) as [cur segs];
      simpl in *; subst cur; simpl; rewrite H; auto.
  - intros p e _. exists 0. destruct p; simpl; auto.
Qed.

(** X2 (a pause before every new attempt).  On every script, also one that
    ends the client, every attempt of the trace but the last holds exactly
    one pause, of 5, and the last holds none: the client never calls
    connect again without having slept in between, and never sleeps
    twice. *)
Theorem pause_before_every_reconnect (s : list response) :
  map pauses (attempts_of (fst (run s)))
  = repeat [5%Z] (connects (fst (run s)) - 1) ++ [[]].
Proof.
  rewrite run_machine. unfold attempts_of.
  destruct (machine_pauses s Connecting) as (n & _ & H).
  rewrite <- attempts_count, <- (length_map pauses), H.
  rewrite length_app, repeat_length. simpl.
  now replace (n + 1 - 1) with n by lia.
Qed.

Lemma machine_lines (s : list response) :
  forall p line,
    In line (printed (fst (machine p s))) ->
    line = connected_line \/
    (exists v, In (Returns v) s /\ line = message_line v) \/
    (exists e, In (Raises e) s /\ recoverable e = true /\ line = failure_line e).
Proof.
  induction s as [|[v|e] s IH]; intros p line H.
  - destruct p; simpl in H; contradiction.
  - assert (N : forall q, In line (printed (fst (machine q s))) ->
        line = connected_line \/
        (exists v0, In (Returns v0) (Returns v :: s) /\ line = message_line v0) \/
        (exists e, In (Raises e) (Returns v :: s) /\
                   recoverable e = true /\ line = failure_line e)).
    { intros q Hq.
      destruct (IH q line Hq) as [L | [(v0 & I0 & L) | (e & I0 & R & L)]].
      - now left.
      - right; left. exists v0. simpl; auto.
      - right; right. exists e. simpl; auto. }
    destruct p; simpl in H.
    + destruct H as [<- | H]; [now left | now apply (N Announcing)].
    + now apply (N Receiving).
    + destruct H as [<- | H]; [|now apply (N Receiving)].
      right; left. exists v. simpl; auto.
  - simpl machine in H. destruct (recoverable e) eqn:He.
    + assert (H' : failure_line e = line \/
                   In line (printed (fst (machine Connecting s))))
        by (destruct p; simpl in H; exact H).
      destruct H' as [<- | H'].
      * right; right. exists e. simpl; auto.
      * destruct (IH Connecting line H')
          as [L | [(v0 & I0 & L) | (e0 & I0 & R & L)]].
        -- now left.
        -- right; left. exists v0. simpl; auto.
        -- right; right. exists e0. simpl; auto.
    + destruct p; simpl in H; contradiction.
Qed.

(** X3 (what is printed).  Every line the client prints is
    "Connected to server", or "Message from server: " followed by a value
    the environment returned, or "Connection failed: <e>. Retrying..." for
    an exception [e] of the three classes that the environment raised: it
    prints nothing of its own, and nothing for an exception that ends
    it. *)
Theorem printed_lines_vocabulary (s : list response) (line : string) :
  In line (printed (fst (run s))) ->
  line = "Connected to server" \/
  (exists v, In (Returns v) s /\ line = ("Message from server: " ++ v)%string) \/
  (exists e, In (Raises e) s /\ recoverable e = true /\
             line = ("Connection failed: " ++ exn_str e ++ ". Retrying...")%string).
Proof. rewrite run_machine. apply machine_lines. Qed.

Lemma printed_lines_vocabulary_witness :
  let s := [Returns "websocket"; Returns "None"; Returns "A";
            Raises (mk_exn ConnectionResetError "[Errno 104] Connection reset by peer")] in
  let line := "Message from server: A" in
  In line (printed (fst (run s))) /\
  (line = "Connected to server" \/
   (exists v, In (Returns v) s /\ line = ("Message from server: " ++ v)%string) \/
   (exists e, In (Raises e) s /\ recoverable e = true /\
              line = ("Connection failed: " ++ exn_str e ++ ". Retrying...")%string)).
Proof.
  assert (H : In "Message from server: A"
                (printed (fst (run
                   [Returns "websocket"; Returns "None"; Returns "A";
                    Raises (mk_exn ConnectionResetError
                              "[Errno 104] Connection reset by peer")]))))
    by (vm_compute; auto).
  split; [exact H|].
  exact (printed_lines_vocabulary _ _ H).
Defined.

Lemma machine_same_control (s1 s2 : list response) :
  Forall2 same_control s1 s2 ->
  forall p,
    map blank (fst (machine p s1)) = map blank (fst (machine p s2)) /\
    (snd (machine p s1) = Blocked <-> snd (machine p s2) = Blocked).
Proof.
  induction 1 as [|r1 r2 s1 s2 Hr _ IH]; intros p.
  - split; [reflexivity | tauto].
  - destruct r1 as [v1|e1], r2 as [v2|e2]; simpl in Hr; try contradiction.
    + destruct p; simpl; rewrite ?map_app;
        (destruct (IH Announcing) as [A1 A2]);
        (destruct (IH Receiving) as [R1 R2]);
        simpl; rewrite ?A1, ?R1; auto.
    + simpl machine. rewrite Hr. destruct (recoverable e2).
      * destruct (IH Connecting) as [C1 C2].
        split; [|exact C2].
        destruct p; simpl; rewrite C1; reflexivity.
      * split; [destruct p; reflexivity|].
        simpl. split; discriminate.
Qed.

(** X4 (answers are not interpreted).  Take two scripts that differ only in
    the values returned (by connect, send or recv) and in which exception
    is raised among those the [except] clause treats alike.  The two runs
    are the same but for the text of the lines printed: the same calls in
    the same order, a line printed at the same places, and the client goes
    on in the one exactly when it does in the other. *)
Theorem answers_only_change_the_text (s1 s2 : list response) :
  Forall2 same_control s1 s2 ->
  map blank (fst (run s1)) = map blank (fst (run s2)) /\
  (snd (run s1) = Blocked <-> snd (run s2) = Blocked).
Proof. rewrite !run_machine. intros H. now apply machine_same_control. Qed.

Lemma answers_only_change_the_text_witness :
  let s1 := [Returns "websocket"; Returns "None"; Returns "quit";
             Raises (mk_exn ConnectionClosedOK "received 1000 (OK)")] in
  let s2 := [Returns "other"; Returns "sent"; Returns "cmd: stop";
             Raises (mk_exn gaierror "[Errno -2] Name or service not known")] in
  Forall2 same_control s1 s2 /\
  map blank (fst (run s1)) = map blank (fst (run s2)) /\
  (snd (run s1) = Blocked <-> snd (run s2) = Blocked).
Proof.
  assert (H : Forall2 same_control
                [Returns "websocket"; Returns "None"; Returns "quit";
                 Raises (mk_exn ConnectionClosedOK "received 1000 (OK)")]
                [Returns "other"; Returns "sent"; Returns "cmd: stop";
                 Raises (mk_exn gaierror "[Errno -2] Name or service not known")])
    by (repeat constructor).
  split; [exact H|].
  exact (answers_only_change_the_text _ _ H).
Defined.

Lemma message_line_not_connected (v : string) :
  message_line v <> connected_line.
Proof. unfold message_line, connected_line. simpl. discriminate. Qed.

Lemma failure_line_not_connected (e : exn) :
  failure_line e <> connected_line.
Proof. unfold failure_line, connected_line. simpl. discriminate. Qed.

(** The text "Connected to server" is printed once per connection opened:
    the other two texts start differently. *)
Lemma connected_prints_count (s : list response) :
  count_occ string_dec (printed (fst (run s))) connected_line
  = opens (fst (run s)).
Proof.
  rewrite run_machine. unfold opens.
  apply (machine_invariant (fun _ tr =>
    count_occ string_dec (printed tr) connected_line
    = List.length (filter is_open tr))).
  - intros []; reflexivity.
  - intros tr H.
    change (printed ([EConnect endpoint; EOpen; EPrint connected_line] ++ tr))
      with (connected_line :: printed tr).
    rewrite count_occ_cons_eq by reflexivity.
    simpl filter. simpl List.length. now rewrite H.
  - intros tr H. exact H.
  - intros v tr H.
    change (printed ([ERecv; EPrint (message_line v)] ++ tr))
      with (message_line v :: printed tr).
    rewrite count_occ_cons_neq by apply message_line_not_connected.
    exact H.
  - intros p e tr _ H.
    assert (E : printed ((pending p :: closing p)
                           ++ [EPrint (failure_line e); ESleep 5] ++ tr)
                = failure_line e :: printed tr) by (destruct p; reflexivity).
    assert (F : filter is_open ((pending p :: closing p)
                           ++ [EPrint (failure_line e); ESleep 5] ++ tr)
                = filter is_open tr) by (destruct p; reflexivity).
    rewrite E, F.
    rewrite count_occ_cons_neq by apply failure_line_not_connected.
    exact H.
  - intros p e _. destruct p; reflexivity.
Qed.


Lemma no_newline_app (a b : string) :
  no_newline (a ++ b) = no_newline a && no_newline b.
Proof.
  induction a as [|c a IH]; [reflexivity|].
  simpl. rewrite IH. now rewrite andb_assoc.
Qed.

Lemma lines_first (l rest : string) :
  no_newline l = true ->
  lines (l ++ String LF rest) = l :: lines rest.
Proof.
  induction l as [|c l IH]; intros H; [reflexivity|].
  simpl in H. apply andb_prop in H. destruct H as [Hc Hl].
  simpl. apply negb_true_iff in Hc. rewrite Hc, (IH Hl). reflexivity.
Qed.

Lemma lines_stdout (tr : list event) :
  Forall (fun l => no_newline l = true) (printed tr) ->
  lines (stdout tr) = printed tr.
Proof.
  induction tr as [|ev tr IH]; intros H; [reflexivity|].
  destruct ev; simpl in *; try (now apply IH).
  inversion H as [|? ? Hl Ht]; subst.
  rewrite (lines_first _ _ Hl), (IH Ht). reflexivity.
Qed.

(** X5 (standard output, line by line).  Let no value returned and no
    exception text of the script hold a line feed.  Then standard output is
    one line per call to [print], in order and with that call's text, and
    the line "Connected to server" is on it exactly as many times as a
    connection was opened.  (The condition is needed: see
    [stdout_line_forged].) *)
Theorem stdout_one_line_per_print (s : list response) :
  (forall v, In (Returns v) s -> no_newline v = true) ->
  (forall e, In (Raises e) s -> no_newline (exn_str e) = true) ->
  lines (stdout (fst (run s))) = printed (fst (run s)) /\
  count_occ string_dec (lines (stdout (fst (run s)))) "Connected to server"
  = opens (fst (run s)).
Proof.
  intros Hv He.
  assert (L : lines (stdout (fst (run s))) = printed (fst (run s))).
  { apply lines_stdout. apply Forall_forall. intros line Hin.
    rewrite run_machine in Hin.
    destruct (machine_lines s Connecting line Hin)
      as [-> | [(v & Iv & ->) | (e & Ie & _ & ->)]].
    - reflexivity.
    - unfold message_line. rewrite no_newline_app, (Hv v Iv). reflexivity.
    - unfold failure_line. rewrite !no_newline_app, (He e Ie). reflexivity. }
  split; [exact L|].
  rewrite L. apply connected_prints_count.
Qed.

Lemma stdout_one_line_per_print_witness :
  let closed := mk_exn ConnectionClosedOK "received 1000 (OK); then sent 1000 (OK)" in
  let s := [Returns "websocket"; Returns "None"; Returns "A"; Raises closed;
            Returns "websocket"] in
  (forall v, In (Returns v) s -> no_newline v = true) /\
  (forall e, In (Raises e) s -> no_newline (exn_str e) = true) /\
  lines (stdout (fst (run s))) =
    ["Connected to server"; "Message from server: A";
     "Connection failed: received 1000 (OK); then sent 1000 (OK). Retrying...";
     "Connected to server"] /\
  count_occ string_dec (lines (stdout (fst (run s)))) "Connected to server" = 2.
Proof.
  assert (Hv : forall v,
             In (Returns v)
                [Returns "websocket"; Returns "None"; Returns "A";
                 Raises (mk_exn ConnectionClosedOK
                           "received 1000 (OK); then sent 1000 (OK)");
                 Returns "websocket"] -> no_newline v = true).
  { intros v [E | [E | [E | [E | [E | []]]]]]; try discriminate;
      injection E as <-; reflexivity. }
  assert (He : forall e,
             In (Raises e)
                [Returns "websocket"; Returns "None"; Returns "A";
                 Raises (mk_exn ConnectionClosedOK
                           "received 1000 (OK); then sent 1000 (OK)");
                 Returns "websocket"] -> no_newline (exn_str e) = true).
  { intros e [E | [E | [E | [E | [E | []]]]]]; try discriminate;
      injection E as <-; reflexivity. }
  split; [exact Hv|]. split; [exact He|].
  destruct (stdout_one_line_per_print _ Hv He) as [L C].
  split; [rewrite L; reflexivity | rewrite C; reflexivity].
Defined.

(** A message with a line feed in it: the server's text puts
    "Connected to server" on standard output a second time, with one
    connection opened. *)
Example stdout_line_forged :
  let forged := ("x" ++ String LF "Connected to server")%string in
  let s := [Returns "websocket"; Returns "None"; Returns forged] in
  lines (stdout (fst (run s))) =
    ["Connected to server"; "Message from server: x"; "Connected to server"] /\
  opens (fst (run s)) = 1.
Proof. split; reflexivity. Qed.

Lemma machine_blocked_recoverable (s : list response) :
  forall p, snd (machine p s) = Blocked -> answers_recoverable s.
Proof.
  induction s as [|[v|e] s IH]; intros p Hb e0 Hin.
  - contradiction.
  - destruct Hin as [E | Hin]; [discriminate|].
    destruct p; simpl in Hb; eapply IH; eassumption.
  - simpl in Hb. destruct (recoverable e) eqn:He; [|discriminate].
    destruct Hin as [E | Hin].
    + injection E as <-. exact He.
    + eapply (IH Connecting); eassumption.
Qed.

(** X6 (when the client goes on).  After a script the client is still
    running exactly when every exception raised in it is of the three
    classes: one exception of another class, at any call, ends it, and
    nothing else does. *)
Theorem running_iff_all_recoverable (s : list response) :
  snd (run s) = Blocked <-> answers_recoverable s.
Proof.
  rewrite run_machine. split.
  - apply machine_blocked_recoverable.
  - intros H.
    destruct (machine_outcome s Connecting) as [B | (e & rest & E & He & Hin)];
      [exact B|].
    rewrite (H e Hin) in He. discriminate.
Qed.

Lemma open_handles_app (a b : list event) :
  forall h, open_handles h (a ++ b) = open_handles (open_handles h a) b.
Proof.
  induction a as [|ev a IH]; intros h; [reflexivity|].
  destruct ev; simpl; apply IH.
Qed.

Lemma machine_closed_at_exit (s : list response) :
  forall p r rest,
    snd (machine p s) = Finished r rest ->
    open_handles (held p) (fst (machine p s)) = 0%Z.
Proof.
  induction s as [|[v|e] s IH]; intros p r rest Hf.
  - discriminate.
  - destruct p; simpl in Hf |- *.
    + exact (IH Announcing r rest Hf).
    + exact (IH Receiving r rest Hf).
    + exact (IH Receiving r rest Hf).
  - simpl machine in Hf |- *. destruct (recoverable e).
    + simpl in Hf. specialize (IH Connecting r rest Hf).
      destruct p; simpl; exact IH.
    + destruct p; reflexivity.
Qed.

(** X7 (nothing left open at exit).  Let the run end by an exception that
    a call of the client raised, an instance of [Exception]: it travels up
    through the [async with] block.  Then every connection the client opened
    has been closed: leaving the block closes the connection also when the
    [except] clause does not catch the exception.  ([KeyboardInterrupt] is
    left out: it is not an [Exception], and an interrupt reaches the event
    loop, not the suspended call.) *)
Theorem no_connection_left_open
    (s : list response) (e : exn) (rest : list response) :
  snd (run s) = Finished (inl e) rest ->
  isinstance e Exception = true ->
  open_handles 0 (fst (run s)) = 0%Z.
Proof.
  rewrite run_machine. intros H _.
  exact (machine_closed_at_exit s Connecting (inl e) rest H).
Qed.

Lemma no_connection_left_open_witness :
  let reset := mk_exn ConnectionResetError "[Errno 104] Connection reset by peer" in
  let s := [Returns "websocket"; Returns "None"; Returns "A"; Raises reset;
            Returns "B"] in
  snd (run s) = Finished (inl reset) [Returns "B"] /\
  isinstance reset Exception = true /\
  opens (fst (run s)) = 1 /\
  open_handles 0 (fst (run s)) = 0%Z.
Proof.
  split; [reflexivity|]. split; [reflexivity|]. split; [reflexivity|].
  apply (no_connection_left_open
           [Returns "websocket"; Returns "None"; Returns "A";
            Raises (mk_exn ConnectionResetError
                      "[Errno 104] Connection reset by peer");
            Returns "B"]
           (mk_exn ConnectionResetError "[Errno 104] Connection reset by peer")
           [Returns "B"]); reflexivity.
Defined.
